(** * RobustTimer: a one-shot POSIX timer that runs its callback on a worker thread

    Shallow embedding of [src/source/RobustTimer.cpp] and
    [src/include/RobustTimer.hpp].

    The program is a C++ class whose member functions mutate the object, two
    class-wide statics ([signal_map_], [signal_mutex_]) and operating-system
    objects (an unnamed semaphore, a POSIX timer, a signal disposition, a
    thread).  All of that is gathered in one [World] record, and every member
    function becomes a computation in a small monad [M] over [World] whose
    outcome says whether the call returned, threw, parked its thread, or
    touched an object that is not alive.  Every call the source makes to the
    operating system or to the standard library appends one [event] to the
    world's [log], in program order, so that statements about the order of
    steps are statements about that list.

    The return value of a fallible operating-system call ([sem_init],
    [timer_create], [timer_settime]), whether the standard library manages
    to start a thread, and whether a signal handler interrupts a [sem_wait],
    are inputs of the member function that makes the call.

    Threads interleave at the statements of [workerThread]: a worker is at
    the top of its loop, between [sem_wait] and the test of [is_running_],
    or between that test and the call of [callback_], and the calls of the
    public member functions are the atomic steps of the other threads. *)

From stdpp Require Import gmap strings list fin_maps.
From Stdlib Require Import ZArith Lia.

Local Open Scope Z_scope.

(** ** Data model *)

(** [struct timespec] and [struct itimerspec] of <time.h>. *)
Record timespec := Timespec { tv_sec : Z; tv_nsec : Z }.
Record itimerspec := Itimerspec { it_value : timespec; it_interval : timespec }.

(** [struct itimerspec its = {};] *)
Definition its_zero : itimerspec :=
  {| it_value := {| tv_sec := 0; tv_nsec := 0 |};
     it_interval := {| tv_sec := 0; tv_nsec := 0 |} |}.

(** A [RobustTimer*]: the null pointer or the address of an object. *)
Inductive ptr := nullptr | Ptr (a : positive).

(** What [throw] carries: the two standard exception classes the source
    uses, with their [what()] text, and the [std::system_error] with which
    the constructor of [std::thread] reports that no thread could be
    started, with the name of its error condition. *)
Inductive exn :=
| invalid_argument (what : string)
| runtime_error (what : string)
| system_error (condition : string).

(** A [std::function<void()>]: [None] is the empty function, [Some f] a
    callable whose effect on the memory it captured is [f]. *)
Definition callback := option (Z → Z).

(** A [std::thread] member and the thread it manages.  A thread that runs
    [workerThread] is in one of three places: at the top of the loop, in
    [sem_wait] or about to call it ([Alive]); back from [sem_wait] with
    [is_running_] not read yet ([Woken]); or past the test, having read
    [is_running_] as [true], with [callback_] not called yet ([Calling]).
    Otherwise the thread has returned from its function but was not joined
    ([Finished]), or was joined ([Joined]). *)
Inductive thread := Alive | Woken | Calling | Finished | Joined.

(** Is the thread still inside [workerThread]? *)
Definition running (t : thread) : bool :=
  match t with Alive | Woken | Calling => true | _ => false end.

(** [std::thread::joinable]: a thread that has finished but was not joined is
    still joinable. *)
Definition joinable (t : thread) : bool :=
  match t with Joined => false | _ => true end.

(** The data members of [class RobustTimer], except [semaphore_], which is an
    operating-system object and lives in [sems] below under the address of
    the object that contains it. *)
Record RobustTimer := MkRobustTimer {
  timer_id_ : positive;
  timeout_ns_ : Z;
  callback_ : callback;
  is_running_ : bool;
  worker_thread_ : thread;
  signal_number_ : Z
}.

(** A POSIX per-process timer: the [sigevent] it was created with and its
    current setting.  A setting whose [it_value] is zero is a disarmed
    timer. *)
Record os_timer := OsTimer {
  sigev_signo : Z;
  sival_ptr : positive;
  setting : itimerspec
}.

(** One entry per call the source makes outside its own class. *)
Inductive event :=
| EvSemInit (this : positive)
| EvSemPost (this : positive)
| EvSemWait (this : positive)
| EvSemWaitEintr (this : positive)
| EvSemDestroy (this : positive)
| EvLock
| EvUnlock
| EvSigaction (signo : Z)
| EvMapFind (signo : Z)
| EvMapInsert (signo : Z) (this : positive)
| EvMapErase (signo : Z)
| EvTimerCreate (signo : Z) (ok : bool)
| EvTimerSettime (tid : positive) (its : itimerspec) (ok : bool)
| EvTimerDelete (tid : positive)
| EvThreadStart (this : positive) (ok : bool)
| EvThreadJoin (this : positive)
| EvCallback (this : positive).

Record World := MkWorld {
  objs : gmap positive RobustTimer;   (* the live objects, by address *)
  signal_map_ : gmap Z ptr;           (* static std::map<int, RobustTimer*> *)
  signal_mutex_ : bool;               (* static std::mutex: is it held? *)
  sems : gmap positive nat;           (* initialised semaphores and their value *)
  timers : gmap positive os_timer;    (* existing POSIX timers, by timer_t *)
  next_timer : positive;              (* the timer_t the next timer_create yields *)
  sigactions : gset Z;                (* signals whose handler is signalHandler *)
  user : Z;                           (* the memory the callbacks act on *)
  log : list event
}.

Definition empty_world : World :=
  {| objs := ∅; signal_map_ := ∅; signal_mutex_ := false; sems := ∅;
     timers := ∅; next_timer := 1%positive; sigactions := ∅; user := 0;
     log := [] |}.

Definition set_objs (f : gmap positive RobustTimer → gmap positive RobustTimer)
    (w : World) : World :=
  {| objs := f (objs w); signal_map_ := signal_map_ w;
     signal_mutex_ := signal_mutex_ w; sems := sems w; timers := timers w;
     next_timer := next_timer w; sigactions := sigactions w; user := user w;
     log := log w |}.

Definition set_signal_map (f : gmap Z ptr → gmap Z ptr) (w : World) : World :=
  {| objs := objs w; signal_map_ := f (signal_map_ w);
     signal_mutex_ := signal_mutex_ w; sems := sems w; timers := timers w;
     next_timer := next_timer w; sigactions := sigactions w; user := user w;
     log := log w |}.

Definition set_signal_mutex (b : bool) (w : World) : World :=
  {| objs := objs w; signal_map_ := signal_map_ w; signal_mutex_ := b;
     sems := sems w; timers := timers w; next_timer := next_timer w;
     sigactions := sigactions w; user := user w; log := log w |}.

Definition set_sems (f : gmap positive nat → gmap positive nat) (w : World) : World :=
  {| objs := objs w; signal_map_ := signal_map_ w;
     signal_mutex_ := signal_mutex_ w; sems := f (sems w); timers := timers w;
     next_timer := next_timer w; sigactions := sigactions w; user := user w;
     log := log w |}.

Definition set_timers (f : gmap positive os_timer → gmap positive os_timer)
    (w : World) : World :=
  {| objs := objs w; signal_map_ := signal_map_ w;
     signal_mutex_ := signal_mutex_ w; sems := sems w; timers := f (timers w);
     next_timer := next_timer w; sigactions := sigactions w; user := user w;
     log := log w |}.

Definition set_next_timer (p : positive) (w : World) : World :=
  {| objs := objs w; signal_map_ := signal_map_ w;
     signal_mutex_ := signal_mutex_ w; sems := sems w; timers := timers w;
     next_timer := p; sigactions := sigactions w; user := user w;
     log := log w |}.

Definition set_sigactions (f : gset Z → gset Z) (w : World) : World :=
  {| objs := objs w; signal_map_ := signal_map_ w;
     signal_mutex_ := signal_mutex_ w; sems := sems w; timers := timers w;
     next_timer := next_timer w; sigactions := f (sigactions w); user := user w;
     log := log w |}.

Definition set_user (f : Z → Z) (w : World) : World :=
  {| objs := objs w; signal_map_ := signal_map_ w;
     signal_mutex_ := signal_mutex_ w; sems := sems w; timers := timers w;
     next_timer := next_timer w; sigactions := sigactions w; user := f (user w);
     log := log w |}.

Definition emit (e : event) (w : World) : World :=
  {| objs := objs w; signal_map_ := signal_map_ w;
     signal_mutex_ := signal_mutex_ w; sems := sems w; timers := timers w;
     next_timer := next_timer w; sigactions := sigactions w; user := user w;
     log := log w ++ [e] |}.

(** Updates of one data member of an object. *)
Definition with_timeout_ns (t : Z) (o : RobustTimer) : RobustTimer :=
  {| timer_id_ := timer_id_ o; timeout_ns_ := t; callback_ := callback_ o;
     is_running_ := is_running_ o; worker_thread_ := worker_thread_ o;
     signal_number_ := signal_number_ o |}.

Definition with_is_running (b : bool) (o : RobustTimer) : RobustTimer :=
  {| timer_id_ := timer_id_ o; timeout_ns_ := timeout_ns_ o;
     callback_ := callback_ o; is_running_ := b;
     worker_thread_ := worker_thread_ o; signal_number_ := signal_number_ o |}.

Definition with_worker_thread (t : thread) (o : RobustTimer) : RobustTimer :=
  {| timer_id_ := timer_id_ o; timeout_ns_ := timeout_ns_ o;
     callback_ := callback_ o; is_running_ := is_running_ o;
     worker_thread_ := t; signal_number_ := signal_number_ o |}.

Definition with_setting (its : itimerspec) (t : os_timer) : os_timer :=
  {| sigev_signo := sigev_signo t; sival_ptr := sival_ptr t; setting := its |}.

(** ** The monad of member functions *)

Inductive outcome (A : Type) :=
| Ret (a : A) (w : World)       (* the call returned [a] *)
| Throw (e : exn) (w : World)   (* an exception left the call *)
| Block (w : World)             (* the calling thread is parked and has not returned *)
| Undef.                        (* a member of an object that is not alive was used *)
Arguments Ret {A} a w.
Arguments Throw {A} e w.
Arguments Block {A} w.
Arguments Undef {A}.

Definition M (A : Type) : Type := World → outcome A.

Definition ret {A} (a : A) : M A := λ w, Ret a w.
Definition throw {A} (e : exn) : M A := λ w, Throw e w.
Definition bind {A B} (m : M A) (k : A → M B) : M B :=
  λ w, match m w with
       | Ret a w' => k a w'
       | Throw e w' => Throw e w'
       | Block w' => Block w'
       | Undef => Undef
       end.
Definition effect (f : World → World) : M unit := λ w, Ret tt (f w).
Definition call (e : event) : M unit := effect (emit e).

Declare Scope M_scope.
Notation "x ← m ; k" := (bind m (λ x, k))
  (at level 20, m at level 100, k at level 200, only parsing) : M_scope.
Notation "m ;; k" := (bind m (λ _, k))
  (at level 100, k at level 200, right associativity) : M_scope.
Delimit Scope M_scope with M.
Bind Scope M_scope with M.
Local Open Scope M_scope.

(** Read a data member of [*this]. *)
Definition member {A} (this : positive) (f : RobustTimer → A) : M A :=
  λ w, match objs w !! this with
       | Some o => Ret (f o) w
       | None => Undef
       end.

(** Write a data member of [*this]. *)
Definition assign (this : positive) (f : RobustTimer → RobustTimer) : M unit :=
  λ w, match objs w !! this with
       | Some o => Ret tt (set_objs <[this := f o]> w)
       | None => Undef
       end.

(** ** The operating system and the standard library, as the source uses them *)

(** [sem_init(&semaphore_, 0, 0)] once it has succeeded. *)
Definition sem_init (this : positive) : M unit :=
  call (EvSemInit this) ;; effect (set_sems <[this := 0%nat]>).

(** [sem_post]: never blocks.  Posting to a semaphore that is not
    initialised is undefined. *)
Definition sem_post (this : positive) : M unit :=
  λ w, match sems w !! this with
       | Some n => Ret tt (set_sems <[this := S n]> (emit (EvSemPost this) w))
       | None => Undef
       end.

(** [sem_wait]: takes one unit, and parks the caller while there is none.
    The source installs its handler with [sa_flags = SA_SIGINFO], without
    [SA_RESTART], so a [sem_wait] that a signal handler interrupts is not
    restarted: it returns [-1] with [EINTR] and has taken nothing.  [eintr]
    says whether that happens to this call; the result is [true] for [0],
    [false] for [-1]. *)
Definition sem_wait (this : positive) (eintr : bool) : M bool :=
  λ w, match sems w !! this with
       | Some n =>
           if eintr then Ret false (emit (EvSemWaitEintr this) w)
           else match n with
                | S n' => Ret true (set_sems <[this := n']> (emit (EvSemWait this) w))
                | O => Block w
                end
       | None => Undef
       end.

Definition sem_destroy (this : positive) : M unit :=
  call (EvSemDestroy this) ;; effect (set_sems (delete this)).

(** [std::lock_guard<std::mutex> lock(signal_mutex_);] followed by the rest
    of the enclosing block.  Taking a held mutex parks the caller; the guard
    releases the mutex when the block is left, by its end or by a [throw]. *)
Definition lock_guard {A} (body : M A) : M A :=
  λ w, if signal_mutex_ w then Block w
       else match body (emit EvLock (set_signal_mutex true w)) with
            | Ret a w' => Ret a (emit EvUnlock (set_signal_mutex false w'))
            | Throw e w' => Throw e (emit EvUnlock (set_signal_mutex false w'))
            | Block w' => Block w'
            | Undef => Undef
            end.

(** [signal_map_.find(signo)]: the mapped pointer, [None] for [end()]. *)
Definition map_find (signo : Z) : M (option ptr) :=
  λ w, Ret (signal_map_ w !! signo) (emit (EvMapFind signo) w).

(** [signal_map_[signo] = this;] *)
Definition map_insert (signo : Z) (this : positive) : M unit :=
  call (EvMapInsert signo this) ;; effect (set_signal_map <[signo := Ptr this]>).

(** [signal_map_.erase(signo);] *)
Definition map_erase (signo : Z) : M unit :=
  call (EvMapErase signo) ;; effect (set_signal_map (delete signo)).

(** [sigaction(signo, &sa, nullptr)] with [sa.sa_sigaction = signalHandler]. *)
Definition sigaction (signo : Z) : M unit :=
  call (EvSigaction signo) ;; effect (set_sigactions (λ s, {[signo]} ∪ s)).

(** [timer_create(CLOCK_REALTIME, &sev, &timer_id_)]: on success a new,
    disarmed timer bound to [sev.sigev_signo]; [None] stands for [-1]. *)
Definition timer_create (signo : Z) (this : positive) (ok : bool)
    : M (option positive) :=
  λ w, if ok then
         let tid := next_timer w in
         Ret (Some tid)
             (set_next_timer (Pos.succ tid)
                (set_timers <[tid := OsTimer signo this its_zero]>
                   (emit (EvTimerCreate signo true) w)))
       else Ret None (emit (EvTimerCreate signo false) w).

(** [timer_settime(tid, 0, &its, nullptr)]: on success the new setting
    replaces the old one; the result is [true] for [0], [false] for [-1]. *)
Definition timer_settime (tid : positive) (its : itimerspec) (ok : bool) : M bool :=
  call (EvTimerSettime tid its ok) ;;
  if ok then effect (set_timers (alter (with_setting its) tid)) ;; ret true
  else ret false.

Definition timer_delete (tid : positive) : M unit :=
  call (EvTimerDelete tid) ;; effect (set_timers (delete tid)).

(** [is_running_.exchange(b)] *)
Definition exchange (this : positive) (b : bool) : M bool :=
  old ← member this is_running_;
  assign this (with_is_running b) ;;
  ret old.

(** ** Member functions *)

(** The [its] that [armTimer] fills in: [/] and [%] on [long] truncate
    towards zero; a zero [it_interval] makes the timer one-shot. *)
Definition one_shot (timeout_ns : Z) : itimerspec :=
  {| it_value := {| tv_sec := timeout_ns `quot` 1000000000;
                    tv_nsec := timeout_ns `rem` 1000000000 |};
     it_interval := {| tv_sec := 0; tv_nsec := 0 |} |}.

Definition armTimer (this : positive) (timeout_ns : Z) (settime_ok : bool) : M unit :=
  let its := one_shot timeout_ns in
  tid ← member this timer_id_;
  r ← timer_settime tid its settime_ok;
  if r then ret tt else throw (runtime_error "Failed to arm the timer.").

Definition disarmTimer (this : positive) (settime_ok : bool) : M unit :=
  let its := its_zero in
  tid ← member this timer_id_;
  r ← timer_settime tid its settime_ok;
  if r then ret tt else throw (runtime_error "Failed to disarm the timer.").

Definition start (this : positive) (settime_ok : bool) : M unit :=
  was ← exchange this true;
  if was then ret tt
  else t ← member this timeout_ns_; armTimer this t settime_ok.

Definition stop (this : positive) (settime_ok : bool) : M unit :=
  was ← exchange this false;
  if negb was then ret tt
  else disarmTimer this settime_ok.

Definition changeTimeout (this : positive) (new_timeout_ns : Z)
    (settime_ok : bool) : M unit :=
  assign this (with_timeout_ns new_timeout_ns) ;;
  r ← member this is_running_;
  if r then t ← member this timeout_ns_; armTimer this t settime_ok
  else ret tt.

Definition signalHandler (signo : Z) : M unit :=
  lock_guard (
    it ← map_find signo;
    match it with
    | Some (Ptr a) => sem_post a
    | Some nullptr => ret tt
    | None => ret tt
    end).

(** [callback_()]: the callable runs to its end on the calling thread. *)
Definition invoke (this : positive) (f : Z → Z) : M unit :=
  call (EvCallback this) ;; effect (set_user f).

(** [if (callback_) { callback_(); }] *)
Definition run_callback (this : positive) : M unit :=
  cb ← member this callback_;
  match cb with
  | Some f => invoke this f
  | None => ret tt
  end.

(** [workerThread], from the top of the [while (true)] loop.  [eintr] has one
    entry for each pass through the loop that is followed: whether the
    [sem_wait] of that pass is interrupted.  The result of [sem_wait] is
    discarded, as in the source.  A thread that has used [eintr] up is still
    inside the loop, at its top, and like one parked in [sem_wait] it has
    not returned.  [Ret] is the [break]. *)
Fixpoint workerThread (eintr : list bool) (this : positive) : M unit :=
  match eintr with
  | [] => λ w, Block w
  | i :: eintr' =>
      sem_wait this i ;;
      r ← member this is_running_;
      if negb r then ret tt
      else
        run_callback this ;;
        workerThread eintr' this
  end.

(** [workerThread] from where the thread is: the rest of the pass it is in,
    then the loop. *)
Definition resume (eintr : list bool) (this : positive) (t : thread) : M unit :=
  match t with
  | Alive => workerThread eintr this
  | Woken =>
      r ← member this is_running_;
      if negb r then ret tt
      else
        run_callback this ;;
        workerThread eintr this
  | Calling =>
      run_callback this ;;
      workerThread eintr this
  | Finished | Joined => ret tt
  end.

(** [worker_thread_.join()]: the caller waits until the worker, going on from
    where it is, has returned from [workerThread]. *)
Definition join (eintr : list bool) (this : positive) : M unit :=
  t ← member this worker_thread_;
  resume eintr this t ;;
  call (EvThreadJoin this) ;;
  assign this (with_worker_thread Joined).

(** ** Construction and destruction *)

Section Pool.

(** [SIGRTMIN] and [SIGRTMAX] of <signal.h>: the bounds of the real-time
    signal numbers, fixed by the C library when the process starts. *)
Variables SIGRTMIN SIGRTMAX : Z.

(** The values [signo] takes in
    [for (int signo = SIGRTMIN; signo <= SIGRTMAX; ++signo)]. *)
Definition pool : list Z := seqZ SIGRTMIN (SIGRTMAX - SIGRTMIN + 1).

(** The body of that loop over the remaining values of [signo]; the result is
    [signal_number_] after the loop, which keeps its initialiser [-1] when
    no pass reaches the [break]. *)
Fixpoint scan (this : positive) (signos : list Z) : M Z :=
  match signos with
  | [] => ret (-1)
  | signo :: rest =>
      it ← map_find signo;
      match it with
      | None => sigaction signo ;; map_insert signo this ;; ret signo
      | Some _ => scan this rest
      end
  end.

(** [std::thread(&RobustTimer::workerThread, this)]: the new thread starts at
    the top of [workerThread]; when no thread can be started the constructor
    of [std::thread] throws [std::system_error]. *)
Definition thread_start (this : positive) (ok : bool) : M thread :=
  call (EvThreadStart this ok) ;;
  if ok then ret Alive
  else throw (system_error "resource_unavailable_try_again").

(** [RobustTimer::RobustTimer(timeout_ns, callback)] building the object at
    address [this].  The object joins [objs] when the constructor returns;
    when the constructor throws, no object has come to life at [this] and no
    destructor of [RobustTimer] will run for it. *)
Definition RobustTimer_ctor (this : positive) (timeout_ns : Z) (cb : callback)
    (sem_init_ok timer_create_ok thread_ok : bool) : M unit :=
  match cb with
  | None => throw (invalid_argument "Callback function cannot be null.")
  | Some _ =>
      if negb sem_init_ok
      then throw (runtime_error "Failed to initialize semaphore.")
      else
        sem_init this ;;
        signo ← lock_guard (scan this pool);
        if signo =? -1
        then throw (runtime_error "No available signal numbers for the timer.")
        else
          r ← timer_create signo this timer_create_ok;
          match r with
          | None =>
              lock_guard (map_erase signo ;;
                          throw (runtime_error "Failed to create timer."))
          | Some tid =>
              t ← thread_start this thread_ok;
              effect (set_objs <[this := {| timer_id_ := tid;
                                            timeout_ns_ := timeout_ns;
                                            callback_ := cb;
                                            is_running_ := false;
                                            worker_thread_ := t;
                                            signal_number_ := signo |}]>)
          end
  end.

(** [RobustTimer::~RobustTimer()].  An exception that leaves [stop] leaves the
    destructor, which ends the process ([std::terminate]); the outcome is
    then [Throw].  The object leaves [objs] when the destructor returns. *)
Definition RobustTimer_dtor (eintr : list bool) (this : positive)
    (settime_ok : bool) : M unit :=
  stop this settime_ok ;;
  tid ← member this timer_id_;
  timer_delete tid ;;
  sem_post this ;;
  t ← member this worker_thread_;
  (if joinable t then join eintr this else ret tt) ;;
  sem_destroy this ;;
  lock_guard (signo ← member this signal_number_; map_erase signo) ;;
  effect (set_objs (delete this)).

(** ** The environment: the scheduler and the timer service *)

(** One statement of the worker of [this], from where it is: the [sem_wait]
    (which parks it while there is no unit and no interruption), the test of
    [is_running_], or the call of [callback_]. *)
Definition worker_step (this : positive) (eintr : bool) : M unit :=
  t ← member this worker_thread_;
  match t with
  | Alive =>
      sem_wait this eintr ;;
      assign this (with_worker_thread Woken)
  | Woken =>
      r ← member this is_running_;
      assign this (with_worker_thread (if r then Calling else Finished))
  | Calling =>
      run_callback this ;;
      assign this (with_worker_thread Alive)
  | Finished | Joined => ret tt
  end.

(** The scheduler lets the worker of [this] run, from where it is, until it
    returns or is at the top of its loop again with nothing to take (or with
    [eintr] used up). *)
Definition worker_run (eintr : list bool) (this : positive) (w : World) : World :=
  match objs w !! this with
  | Some o =>
      if running (worker_thread_ o) then
        match resume eintr this (worker_thread_ o) w with
        | Ret _ w' => set_objs (alter (with_worker_thread Finished) this) w'
        | Throw _ w' => w'
        | Block w' => set_objs (alter (with_worker_thread Alive) this) w'
        | Undef => w
        end
      else w
  | None => w
  end.

(** The timer [tid] expires: an armed one-shot timer becomes disarmed and its
    signal is delivered, which runs [signalHandler] with that signal number;
    nothing happens for a disarmed or deleted timer. *)
Definition timer_expire (tid : positive) : M unit :=
  λ w, match timers w !! tid with
       | Some t =>
           if (tv_sec (it_value (setting t)) =? 0)
              && (tv_nsec (it_value (setting t)) =? 0)
           then Ret tt w
           else (effect (set_timers (alter (with_setting its_zero) tid)) ;;
                 signalHandler (sigev_signo t)) w
       | None => Ret tt w
       end.

(** The world an outcome left behind, when there is one. *)
Definition world_of {A} (r : outcome A) (dflt : World) : World :=
  match r with
  | Ret _ w => w
  | Throw _ w => w
  | Block w => w
  | Undef => dflt
  end.

(** Run a member call and carry on in the world it left. *)
Definition after {A} (m : M A) (w : World) : World := world_of (m w) w.

(** The events a call appended to the log. *)
Definition trace {A} (m : M A) (w : World) : list event :=
  drop (length (log w)) (log (after m w)).

(** [w] with [es] appended to its log. *)
Definition append_log (es : list event) (w : World) : World :=
  {| objs := objs w; signal_map_ := signal_map_ w;
     signal_mutex_ := signal_mutex_ w; sems := sems w; timers := timers w;
     next_timer := next_timer w; sigactions := sigactions w; user := user w;
     log := log w ++ es |}.

(** ** The program as a transition system *)

(** What can happen next in the process: a call of a public member function
    by some thread, the delivery of a signal, the expiry of a timer, or the
    worker of an object getting processor time, for one statement or until
    it parks. *)
Inductive op :=
| Create (this : positive) (timeout_ns : Z) (cb : callback)
         (sem_init_ok timer_create_ok thread_ok : bool)
| Destroy (eintr : list bool) (this : positive) (settime_ok : bool)
| Start (this : positive) (settime_ok : bool)
| Stop (this : positive) (settime_ok : bool)
| ChangeTimeout (this : positive) (new_timeout_ns : Z) (settime_ok : bool)
| Signal (signo : Z)
| Expire (tid : positive)
| Schedule (eintr : list bool) (this : positive)
| Step (this : positive) (eintr : bool).

Definition exec (o : op) : M unit :=
  match o with
  | Create this timeout_ns cb s t th => RobustTimer_ctor this timeout_ns cb s t th
  | Destroy eintr this ok => RobustTimer_dtor eintr this ok
  | Start this ok => start this ok
  | Stop this ok => stop this ok
  | ChangeTimeout this d ok => changeTimeout this d ok
  | Signal signo => signalHandler signo
  | Expire tid => timer_expire tid
  | Schedule eintr this => effect (worker_run eintr this)
  | Step this eintr => worker_step this eintr
  end.

(** The world after [o], when the process goes on: the call returned, or
    threw to a caller that goes on.  An object is constructed in storage that
    holds no live object; an exception that leaves a destructor ends the
    process; a call that parks its thread or is undefined has no successor
    here. *)
Definition next (o : op) (w : World) : option World :=
  match o, exec o w with
  | Create this _ _ _ _ _, Ret _ w' | Create this _ _ _ _ _, Throw _ w' =>
      match objs w !! this with None => Some w' | Some _ => None end
  | Destroy _ _ _, Throw _ _ => None
  | _, Ret _ w' | _, Throw _ w' => Some w'
  | _, _ => None
  end.

Inductive reachable : World → Prop :=
| reach_init : reachable empty_world
| reach_next o w w' : reachable w → next o w = Some w' → reachable w'.

(** The addresses [1], ..., [n]. *)
Definition seq_pos (n : nat) : list positive := Pos.of_nat <$> seq 1 n.

(** The world after a sequence of operations, each with a successor. *)
Fixpoint run (ops : list op) (w : World) : option World :=
  match ops with
  | [] => Some w
  | o :: rest =>
      match next o w with
      | Some w' => run rest w'
      | None => None
      end
  end.

(** ** The registry invariant *)

(** A signal number is a key of [signal_map_] exactly when a live object
    holds it in [signal_number_], and it is then mapped to that object. *)
Definition registry_inv (w : World) : Prop :=
  ∀ signo p,
    signal_map_ w !! signo = Some p ↔
    ∃ a o, p = Ptr a ∧ objs w !! a = Some o ∧ signal_number_ o = signo.


(** No construction among [ops] is one whose thread cannot be started. *)
Definition threads_start (ops : list op) : Prop :=
  ∀ this timeout_ns cb s t, Create this timeout_ns cb s t false ∉ ops.

(** What holds of every world between two operations. *)
Record wf (w : World) : Prop := {
  wf_owner : ∀ a o, objs w !! a = Some o →
                    signal_map_ w !! signal_number_ o = Some (Ptr a);
  wf_mutex : signal_mutex_ w = false;
  wf_sems : ∀ a, is_Some (objs w !! a) → is_Some (sems w !! a);
  wf_pool : ∀ a o, objs w !! a = Some o → signal_number_ o ∈ pool
}.

(** Every signal number of the pool is taken. *)
Definition exhausted (w : World) : Prop :=
  ∀ signo, signo ∈ pool → is_Some (signal_map_ w !! signo).

End Pool.

(** ** Sample runs

    With the bounds glibc gives on Linux, [SIGRTMIN = 34] and
    [SIGRTMAX = 64], and a callback that increments a counter. *)

Definition tick : callback := Some (λ n, n + 1).

(** One timer of 50 ms at address 1, stopped. *)
Definition w_one : World :=
  after (RobustTimer_ctor 34 64 1 50000000 tick true true true) empty_world.

(** The same timer after [start()]. *)
Definition w_running : World := after (start 1 true) w_one.

(** The timer has expired and the handler has posted, but [stop()] was
    called before the worker got to run. *)
Definition w_late_wake : World :=
  after (stop 1 true) (after (timer_expire 1) w_running).

(** Thirty-one timers, at addresses 1 to 31: every signal number is taken. *)
Definition fill : list op :=
  (λ a, Create a 50000000 tick true true true) <$> seq_pos 31.

Definition w_full : World := default empty_world (run 34 64 fill empty_world).

(** The timer has expired, and its worker has taken the wake and read
    [is_running_] as [true], but has not called the callback yet. *)
Definition w_calling : World :=
  after (worker_step 1 false)
    (after (worker_step 1 false) (after (timer_expire 1) w_running)).


(** One timer at address 1 whose timeout is zero, stopped. *)
Definition w_zero : World :=
  after (RobustTimer_ctor 34 64 1 0 tick true true true) empty_world.

(** ** Framing *)

(** [w'] has the registry, the mutex and the signal numbers of [w], and
    every semaphore of [w]: what an operation that neither constructs nor
    destroys an object leaves in place. *)
Definition frame (w w' : World) : Prop :=
  signal_map_ w' = signal_map_ w ∧
  signal_mutex_ w' = signal_mutex_ w ∧
  (∀ a, is_Some (sems w !! a) → is_Some (sems w' !! a)) ∧
  (∀ a, signal_number_ <$> objs w' !! a = signal_number_ <$> objs w !! a).

Definition keeps {A} (r : outcome A) (w : World) : Prop :=
  match r with
  | Ret _ w' | Throw _ w' | Block w' => frame w w'
  | Undef => True
  end.

(** The world after the pass of the constructor's loop that reaches the
    [break]: the handler is installed for [signo] and [signo] is mapped to
    [this]. *)
Definition reserved (signo : Z) (this : positive) (w : World) : World :=
  set_signal_map <[signo := Ptr this]>
    (emit (EvMapInsert signo this)
       (set_sigactions (λ s, {[signo]} ∪ s) (emit (EvSigaction signo) w))).

(** The world after the callback of [o], the object at [this], was called. *)
Definition called (this : positive) (o : RobustTimer) (w : World) : World :=
  match callback_ o with
  | Some f => set_user f (emit (EvCallback this) w)
  | None => w
  end.

(** The world after a [sem_wait] returned: interrupted, or with one of the
    [S n] units the semaphore held. *)
Definition waited (this : positive) (eintr : bool) (n : nat) (w : World) : World :=
  if eintr then emit (EvSemWaitEintr this) w
  else set_sems <[this := n]> (emit (EvSemWait this) w).

(** The passes among [eintr] whose [sem_wait] is not interrupted: each of
    them takes a unit. *)
Definition uninterrupted (eintr : list bool) : nat :=
  length (List.filter negb eintr).

(** The calls of a callback among the events of a run. *)
Definition callbacks (es : list event) : list event :=
  List.filter (λ e, match e with EvCallback _ => true | _ => false end) es.

(** The steps of destruction as the specification lists them: disarm, destroy
    the timer, post the sentinel, join, release the channel. *)
Definition claimed_destruction_steps (tid this : positive) (signo : Z) : list event :=
  [EvTimerSettime tid its_zero true; EvTimerDelete tid; EvSemPost this;
   EvThreadJoin this; EvMapErase signo].

(** The calls of the destructor itself among the events of a run: what the
    worker does meanwhile and the taking and releasing of the mutex around
    the erase are left out. *)
Definition destructor_steps (es : list event) : list event :=
  List.filter (λ e, match e with
                    | EvSemWait _ | EvSemWaitEintr _ | EvCallback _
                    | EvLock | EvUnlock => false
                    | _ => true
                    end) es.

(** ** What an object and a timer keep for life *)

(** The members no member function writes after construction, and whether
    the worker can still be joined. *)
Definition core (o : RobustTimer) : positive * Z * callback * bool :=
  (timer_id_ o, signal_number_ o, callback_ o, joinable (worker_thread_ o)).

(** The [sigevent] of a timer, which [timer_settime] leaves alone. *)
Definition binding (t : os_timer) : Z * positive :=
  (sigev_signo t, sival_ptr t).

(** [w'] has the objects of [w] with the same [core], the timers of [w] with
    the same [binding], and the same installed handlers and next timer
    identifier. *)
Definition steady (w w' : World) : Prop :=
  next_timer w' = next_timer w ∧
  sigactions w' = sigactions w ∧
  (∀ tid, binding <$> timers w' !! tid = binding <$> timers w !! tid) ∧
  (∀ a, core <$> objs w' !! a = core <$> objs w !! a).

Definition stays {A} (r : outcome A) (w : World) : Prop :=
  match r with
  | Ret _ w' | Throw _ w' | Block w' => steady w w'
  | Undef => True
  end.

(** What every live object owns between two operations: an existing timer,
    created for its signal number and carrying its address; a callback that
    is not empty; a worker that was not joined; a handler installed for its
    signal number.  Timer identifiers are handed out in increasing order. *)
Record bound (w : World) : Prop := {
  bound_fresh : ∀ tid, is_Some (timers w !! tid) → (tid < next_timer w)%positive;
  bound_timer : ∀ a o, objs w !! a = Some o →
                       ∃ t, timers w !! timer_id_ o = Some t ∧
                            sigev_signo t = signal_number_ o ∧ sival_ptr t = a;
  bound_callback : ∀ a o, objs w !! a = Some o → is_Some (callback_ o);
  bound_thread : ∀ a o, objs w !! a = Some o → joinable (worker_thread_ o) = true;
  bound_handler : ∀ a o, objs w !! a = Some o → signal_number_ o ∈ sigactions w
}.

(** * Properties *)

(** ** Stepping through member calls *)

Lemma with_is_running_id (o : RobustTimer) :
  with_is_running (is_running_ o) o = o.
Proof. by destruct o. Qed.

Lemma with_worker_thread_id (o : RobustTimer) :
  with_worker_thread (worker_thread_ o) o = o.
Proof. by destruct o. Qed.

Lemma assign_same this f w o :
  objs w !! this = Some o → f o = o → assign this f w = Ret tt w.
Proof.
  intros Ho Hf. unfold assign. rewrite Ho, Hf.
  destruct w as [ob ? ? ? ? ? ? ? ?]; cbn in *.
  unfold set_objs; cbn. by rewrite insert_id.
Qed.

(** Unfold the monad and the member functions, then compute the record
    projections that meet a record. *)
Ltac mred :=
  cbv beta iota delta
    [bind ret throw effect call member assign
     sem_init sem_post sem_wait sem_destroy lock_guard map_find map_insert
     map_erase sigaction timer_create timer_settime timer_delete exchange
     thread_start run_callback
     armTimer disarmTimer start stop changeTimeout signalHandler invoke join
     set_objs set_signal_map set_signal_mutex set_sems set_timers
     set_next_timer set_sigactions set_user emit negb joinable running];
  cbn [objs signal_map_ signal_mutex_ sems timers next_timer sigactions user log
       timer_id_ timeout_ns_ callback_ is_running_ worker_thread_ signal_number_
       with_timeout_ns with_is_running with_worker_thread].

(** The same, using what is known about the maps until nothing is left to
    look up. *)
Ltac mrun :=
  mred;
  repeat (progress
            (repeat match goal with
                    | H : _ !! _ = _ |- _ => rewrite H
                    | H : is_running_ _ = _ |- _ => rewrite H
                    | H : worker_thread_ _ = _ |- _ => rewrite H
                    | H : callback_ _ = _ |- _ => rewrite H
                    | H : signal_mutex_ _ = _ |- _ => rewrite H
                    end;
             rewrite ?lookup_insert_eq);
          mred).

(** Split a conjunction into its parts. *)
Ltac conjuncts := repeat match goal with |- _ ∧ _ => split end.

Lemma trace_of_log {A} (m : M A) (w : World) (es : list event) :
  log (after m w) = log w ++ es → trace m w = es.
Proof. intros H. unfold trace. rewrite H. apply drop_app_length. Qed.

Lemma append_log_nil (w : World) : append_log [] w = w.
Proof. destruct w. unfold append_log. cbn. by rewrite app_nil_r. Qed.

(** ** [start], [stop] and [changeTimeout] *)

Lemma start_running this ok w o :
  objs w !! this = Some o → is_running_ o = true → start this ok w = Ret tt w.
Proof.
  intros Ho Hr. unfold start, exchange, bind, member. rewrite Ho, Hr.
  rewrite (assign_same this _ w o); [done | done |].
  rewrite <- Hr. apply with_is_running_id.
Qed.

Lemma start_stopped this ok w o :
  objs w !! this = Some o → is_running_ o = false →
  start this ok w =
    (if ok then Ret tt else Throw (runtime_error "Failed to arm the timer."))
      (set_timers (if ok then alter (with_setting (one_shot (timeout_ns_ o))) (timer_id_ o)
                   else λ m, m)
         (emit (EvTimerSettime (timer_id_ o) (one_shot (timeout_ns_ o)) ok)
            (set_objs <[this := with_is_running true o]> w))).
Proof.
  intros Ho Hr. mrun. by destruct ok.
Qed.

Lemma stop_running this ok w o :
  objs w !! this = Some o → is_running_ o = true →
  stop this ok w =
    (if ok then Ret tt else Throw (runtime_error "Failed to disarm the timer."))
      (set_timers (if ok then alter (with_setting its_zero) (timer_id_ o)
                   else λ m, m)
         (emit (EvTimerSettime (timer_id_ o) its_zero ok)
            (set_objs <[this := with_is_running false o]> w))).
Proof.
  intros Ho Hr. mrun. by destruct ok.
Qed.

Lemma stop_stopped this ok w o :
  objs w !! this = Some o → is_running_ o = false → stop this ok w = Ret tt w.
Proof.
  intros Ho Hr. unfold stop, exchange, bind, member. rewrite Ho, Hr.
  rewrite (assign_same this _ w o); [done | done |].
  rewrite <- Hr. apply with_is_running_id.
Qed.

Lemma changeTimeout_running this d ok w o :
  objs w !! this = Some o → is_running_ o = true →
  changeTimeout this d ok w =
    (if ok then Ret tt else Throw (runtime_error "Failed to arm the timer."))
      (set_timers (if ok then alter (with_setting (one_shot d)) (timer_id_ o)
                   else λ m, m)
         (emit (EvTimerSettime (timer_id_ o) (one_shot d) ok)
            (set_objs <[this := with_timeout_ns d o]> w))).
Proof.
  intros Ho Hr. mrun. by destruct ok.
Qed.

Lemma changeTimeout_stopped this d ok w o :
  objs w !! this = Some o → is_running_ o = false →
  changeTimeout this d ok w = Ret tt (set_objs <[this := with_timeout_ns d o]> w).
Proof.
  intros Ho Hr. by mrun.
Qed.

(** The setting [armTimer] passes splits the timeout into seconds and
    nanoseconds without loss, and its interval is zero. *)
Lemma one_shot_sum (d : Z) :
  tv_sec (it_value (one_shot d)) * 1000000000 + tv_nsec (it_value (one_shot d)) = d ∧
  it_interval (one_shot d) = {| tv_sec := 0; tv_nsec := 0 |}.
Proof.
  assert (d = 1000000000 * (d `quot` 1000000000) + d `rem` 1000000000) as Hqr
    by (apply Z.quot_rem'; lia).
  cbn. split; [lia | done].
Qed.

(** The setting [armTimer] passes for a positive timeout: the timeout split
    into whole seconds and the nanoseconds left over. *)
Lemma one_shot_positive (d : Z) :
  0 < d →
  ∃ sec nsec,
    one_shot d = {| it_value := {| tv_sec := sec; tv_nsec := nsec |};
                    it_interval := {| tv_sec := 0; tv_nsec := 0 |} |} ∧
    sec * 1000000000 + nsec = d ∧ 0 ≤ sec ∧ 0 ≤ nsec < 1000000000 ∧
    (sec =? 0) && (nsec =? 0) = false.
Proof.
  intros Hd. exists (d `quot` 1000000000), (d `rem` 1000000000).
  assert (d = 1000000000 * (d `quot` 1000000000) + d `rem` 1000000000) as Hqr
    by (apply Z.quot_rem'; lia).
  pose proof (Z.rem_bound_pos d 1000000000 ltac:(lia) ltac:(lia)).
  pose proof (Z.quot_pos d 1000000000 ltac:(lia) ltac:(lia)).
  split; [done |]. split; [lia |]. split; [lia |]. split; [lia |].
  destruct (Z.eqb_spec (d `quot` 1000000000) 0) as [Hq|]; [| done].
  destruct (Z.eqb_spec (d `rem` 1000000000) 0) as [Hr|]; [| done].
  lia.
Qed.

(** ** The signal handler *)

Lemma signalHandler_effect signo w :
  signalHandler signo w =
    if signal_mutex_ w then Block w
    else match signal_map_ w !! signo with
         | Some (Ptr a) =>
             match sems w !! a with
             | Some n =>
                 Ret tt (append_log [EvLock; EvMapFind signo; EvSemPost a; EvUnlock]
                           (set_sems <[a := S n]> w))
             | None => Undef
             end
         | _ => Ret tt (append_log [EvLock; EvMapFind signo; EvUnlock] w)
         end.
Proof.
  destruct w as [ob mp mx sm tm nt sa us lg]. unfold append_log. mred.
  destruct mx; [done |].
  destruct (mp !! signo) as [[|a]|]; mred; rewrite <- ?app_assoc; try done.
  destruct (sm !! a); mred; rewrite <- ?app_assoc; done.
Qed.

(** ** The worker *)

Lemma objs_called this o w : objs (called this o w) = objs w.
Proof. unfold called. by destruct (callback_ o). Qed.

Lemma objs_waited this i n w : objs (waited this i n w) = objs w.
Proof. by destruct i. Qed.

Lemma sems_called this o w : sems (called this o w) = sems w.
Proof. unfold called. by destruct (callback_ o). Qed.

(** A [sem_wait] that is interrupted, or that finds a unit, returns. *)
Lemma sem_wait_returns this i w k n :
  sems w !! this = Some k → i = true ∨ k = S n →
  sem_wait this i w = Ret (negb i) (waited this i n w).
Proof.
  intros Hs Hi. unfold sem_wait, waited. rewrite Hs.
  destruct i; [done |]. by destruct Hi as [? | ->].
Qed.

Lemma run_callback_effect this w o :
  objs w !! this = Some o → run_callback this w = Ret tt (called this o w).
Proof. intros Ho. unfold called. mrun. by destruct (callback_ o). Qed.

(** One pass of the loop whose [sem_wait] returns: with the flag set the
    callback is run and the loop is entered again; with the flag cleared,
    [break]. *)
Lemma workerThread_pass i eintr this w k n :
  sems w !! this = Some k → i = true ∨ k = S n →
  workerThread (i :: eintr) this w =
    match objs w !! this with
    | Some o =>
        if is_running_ o
        then workerThread eintr this (called this o (waited this i n w))
        else Ret tt (waited this i n w)
    | None => Undef
    end.
Proof.
  intros Hs Hi. cbn [workerThread]. unfold bind at 1.
  rewrite (sem_wait_returns this i w k n) by done.
  unfold bind at 1, member at 1. rewrite objs_waited.
  destruct (objs w !! this) as [o|] eqn:Ho; [| done].
  destruct (is_running_ o); [| done]. cbn [negb]. unfold bind at 1.
  rewrite (run_callback_effect this _ o); [done |]. by rewrite objs_waited.
Qed.

(** One pass of the loop with a unit to take and the flag set: the callback
    has run and the loop is entered again. *)
Lemma workerThread_running eintr this w o n :
  objs w !! this = Some o → sems w !! this = Some (S n) →
  is_running_ o = true →
  workerThread (false :: eintr) this w =
    workerThread eintr this
      (match callback_ o with
       | Some f => set_user f (emit (EvCallback this)
                                 (set_sems <[this := n]> (emit (EvSemWait this) w)))
       | None => set_sems <[this := n]> (emit (EvSemWait this) w)
       end).
Proof.
  intros Ho Hs Hr. rewrite (workerThread_pass false eintr this w (S n) n); auto.
  rewrite Ho, Hr. unfold called, waited. by destruct (callback_ o).
Qed.


(** No unit to take and no interruption: the worker is parked in
    [sem_wait]. *)
Lemma workerThread_parked eintr this w :
  sems w !! this = Some 0%nat → workerThread (false :: eintr) this w = Block w.
Proof. intros Hs. cbn [workerThread]. by mrun. Qed.

Lemma resume_woken eintr this w :
  resume eintr this Woken w =
    match objs w !! this with
    | Some o =>
        if is_running_ o then workerThread eintr this (called this o w)
        else Ret tt w
    | None => Undef
    end.
Proof.
  unfold resume. unfold bind at 1, member at 1.
  destruct (objs w !! this) as [o|] eqn:Ho; [| done].
  destruct (is_running_ o); [| done]. cbn [negb]. unfold bind at 1.
  by rewrite (run_callback_effect this _ o).
Qed.

Lemma resume_calling eintr this w :
  resume eintr this Calling w =
    match objs w !! this with
    | Some o => workerThread eintr this (called this o w)
    | None => Undef
    end.
Proof.
  unfold resume. unfold bind at 1.
  destruct (objs w !! this) as [o|] eqn:Ho.
  - by rewrite (run_callback_effect this _ o).
  - unfold run_callback, bind, member. by rewrite Ho.
Qed.

(** The worker never writes to an object. *)
Lemma workerThread_objs eintr this w :
  match workerThread eintr this w with
  | Ret _ w' | Throw _ w' | Block w' => objs w' = objs w
  | Undef => True
  end.
Proof.
  revert w. induction eintr as [|i eintr IH]; intros w; [done |].
  destruct (sems w !! this) as [k|] eqn:Hs; [| cbn [workerThread]; by mrun].
  assert (i = true ∨ (∃ n, k = S n) ∨ (i = false ∧ k = 0%nat)) as [Hi|[[n Hk]|[-> ->]]]
    by (destruct i, k; eauto).
  - rewrite (workerThread_pass i eintr this w k 0) by auto.
    destruct (objs w !! this) as [o|]; [| done].
    destruct (is_running_ o); [| by rewrite objs_waited].
    specialize (IH (called this o (waited this i 0 w))).
    destruct (workerThread eintr this _); try done;
      by rewrite IH, objs_called, objs_waited.
  - rewrite (workerThread_pass i eintr this w k n) by auto.
    destruct (objs w !! this) as [o|]; [| done].
    destruct (is_running_ o); [| by rewrite objs_waited].
    specialize (IH (called this o (waited this i n w))).
    destruct (workerThread eintr this _); try done;
      by rewrite IH, objs_called, objs_waited.
  - by rewrite workerThread_parked.
Qed.

Lemma resume_objs eintr this t w :
  match resume eintr this t w with
  | Ret _ w' | Throw _ w' | Block w' => objs w' = objs w
  | Undef => True
  end.
Proof.
  destruct t; try done.
  - apply workerThread_objs.
  - rewrite resume_woken. destruct (objs w !! this) as [o|]; [| done].
    destruct (is_running_ o); [| done].
    pose proof (workerThread_objs eintr this (called this o w)) as H.
    destruct (workerThread eintr this _); try done; by rewrite H, objs_called.
  - rewrite resume_calling. destruct (objs w !! this) as [o|]; [| done].
    pose proof (workerThread_objs eintr this (called this o w)) as H.
    destruct (workerThread eintr this _); try done; by rewrite H, objs_called.
Qed.


(** One statement of the worker, by where it is. *)
Lemma worker_step_alive this i w o k n :
  objs w !! this = Some o → worker_thread_ o = Alive →
  sems w !! this = Some k → i = true ∨ k = S n →
  worker_step this i w =
    Ret tt (set_objs <[this := with_worker_thread Woken o]> (waited this i n w)).
Proof.
  intros Ho Ht Hs Hi. unfold worker_step. unfold bind at 1, member at 1.
  rewrite Ho, Ht. unfold bind at 1.
  rewrite (sem_wait_returns this i w k n) by done.
  unfold assign. by rewrite objs_waited, Ho.
Qed.

Lemma worker_step_parked this w o :
  objs w !! this = Some o → worker_thread_ o = Alive →
  sems w !! this = Some 0%nat → worker_step this false w = Block w.
Proof. intros Ho Ht Hs. unfold worker_step. by mrun. Qed.

Lemma worker_step_woken this i w o :
  objs w !! this = Some o → worker_thread_ o = Woken →
  worker_step this i w =
    Ret tt (set_objs <[this := with_worker_thread
                                 (if is_running_ o then Calling else Finished) o]> w).
Proof. intros Ho Ht. unfold worker_step. by mrun. Qed.

Lemma worker_step_calling this i w o :
  objs w !! this = Some o → worker_thread_ o = Calling →
  worker_step this i w =
    Ret tt (set_objs <[this := with_worker_thread Alive o]> (called this o w)).
Proof.
  intros Ho Ht. unfold worker_step. unfold bind at 1, member at 1.
  rewrite Ho, Ht. unfold bind at 1. rewrite (run_callback_effect this w o) by done.
  unfold assign. by rewrite objs_called, Ho.
Qed.

Lemma worker_step_returned this i w o :
  objs w !! this = Some o → running (worker_thread_ o) = false →
  worker_step this i w = Ret tt w.
Proof.
  intros Ho Ht. unfold worker_step. unfold bind, member. rewrite Ho.
  by destruct (worker_thread_ o).
Qed.

(** ** Operations that leave the registry alone *)

Lemma frame_refl w : frame w w.
Proof. by repeat split. Qed.

Lemma frame_trans w1 w2 w3 : frame w1 w2 → frame w2 w3 → frame w1 w3.
Proof.
  intros (Hm1 & Hx1 & Hs1 & Ho1) (Hm2 & Hx2 & Hs2 & Ho2).
  split; [congruence |]. split; [congruence |]. split.
  - auto.
  - intros a. by rewrite Ho2.
Qed.

Lemma frame_set_objs this f w o :
  objs w !! this = Some o → signal_number_ (f o) = signal_number_ o →
  frame w (set_objs <[this := f o]> w).
Proof.
  intros Ho Hf. repeat split; try done. intros a. cbn.
  destruct (decide (a = this)) as [->|Hne].
  - rewrite lookup_insert_eq, Ho. cbn. by rewrite Hf.
  - by rewrite lookup_insert_ne.
Qed.

Lemma frame_set_timers f w : frame w (set_timers f w).
Proof. by repeat split. Qed.

Lemma frame_emit e w : frame w (emit e w).
Proof. by repeat split. Qed.

Lemma frame_set_user f w : frame w (set_user f w).
Proof. by repeat split. Qed.

Lemma frame_append_log es w : frame w (append_log es w).
Proof. by repeat split. Qed.

Lemma frame_set_sems a n w : frame w (set_sems <[a := n]> w).
Proof.
  repeat split; try done. intros b Hb. cbn.
  destruct (decide (b = a)) as [->|Hne].
  - rewrite lookup_insert_eq. eauto.
  - by rewrite lookup_insert_ne.
Qed.

Lemma frame_called this o w : frame w (called this o w).
Proof. unfold called. by destruct (callback_ o). Qed.

Lemma frame_waited this i n w : frame w (waited this i n w).
Proof.
  destruct i; [apply frame_emit |].
  eapply frame_trans; [apply frame_emit | apply frame_set_sems].
Qed.

Create HintDb frames.
#[local] Hint Resolve frame_refl frame_set_timers frame_emit frame_set_user
  frame_append_log frame_set_sems frame_called frame_waited : frames.
#[local] Hint Extern 2 (frame _ _) => eapply frame_trans; [| solve [eauto with frames]] : frames.

Lemma start_keeps this ok w : keeps (start this ok w) w.
Proof.
  destruct (objs w !! this) as [o|] eqn:Ho; [| by mrun].
  destruct (is_running_ o) eqn:Hr.
  - rewrite (start_running this ok w o) by done. apply frame_refl.
  - rewrite (start_stopped this ok w o) by done.
    assert (frame w (set_objs <[this := with_is_running true o]> w))
      by (by apply frame_set_objs).
    destruct ok; cbn [keeps]; eauto 6 using frame_trans with frames.
Qed.

Lemma stop_keeps this ok w : keeps (stop this ok w) w.
Proof.
  destruct (objs w !! this) as [o|] eqn:Ho; [| by mrun].
  destruct (is_running_ o) eqn:Hr.
  - rewrite (stop_running this ok w o) by done.
    assert (frame w (set_objs <[this := with_is_running false o]> w))
      by (by apply frame_set_objs).
    destruct ok; cbn [keeps]; eauto 6 using frame_trans with frames.
  - rewrite (stop_stopped this ok w o) by done. apply frame_refl.
Qed.

Lemma changeTimeout_keeps this d ok w : keeps (changeTimeout this d ok w) w.
Proof.
  destruct (objs w !! this) as [o|] eqn:Ho; [| by mrun].
  assert (frame w (set_objs <[this := with_timeout_ns d o]> w))
    by (by apply frame_set_objs).
  destruct (is_running_ o) eqn:Hr.
  - rewrite (changeTimeout_running this d ok w o) by done.
    destruct ok; cbn [keeps]; eauto 6 using frame_trans with frames.
  - by rewrite (changeTimeout_stopped this d ok w o).
Qed.

Lemma signalHandler_keeps signo w : keeps (signalHandler signo w) w.
Proof.
  rewrite signalHandler_effect.
  destruct (signal_mutex_ w); [apply frame_refl |].
  destruct (signal_map_ w !! signo) as [[|a]|]; cbn [keeps]; auto with frames.
  destruct (sems w !! a); cbn [keeps]; eauto using frame_trans with frames.
Qed.

Lemma timer_expire_keeps tid w : keeps (timer_expire tid w) w.
Proof.
  unfold timer_expire. destruct (timers w !! tid) as [t|]; [| apply frame_refl].
  destruct (_ && _); [apply frame_refl |].
  unfold bind, effect.
  pose proof (signalHandler_keeps (sigev_signo t)
                (set_timers (alter (with_setting its_zero) tid) w)) as H.
  destruct (signalHandler _ _); cbn [keeps] in *; eauto using frame_trans with frames.
Qed.

Lemma workerThread_keeps eintr this w : keeps (workerThread eintr this w) w.
Proof.
  revert w. induction eintr as [|i eintr IH]; intros w; [apply frame_refl |].
  destruct (sems w !! this) as [k|] eqn:Hs; [| cbn [workerThread]; by mrun].
  assert (∃ n, i = true ∨ k = S n ∨ (i = false ∧ k = 0%nat)) as [n [Hi|[Hi|[-> ->]]]]
    by (exists (pred k); destruct i, k; auto).
  - rewrite (workerThread_pass i eintr this w k n) by auto.
    destruct (objs w !! this) as [o|]; [| done].
    destruct (is_running_ o); [| cbn [keeps]; apply frame_waited].
    specialize (IH (called this o (waited this i n w))).
    assert (frame w (called this o (waited this i n w)))
      by (eapply frame_trans; [apply frame_waited | apply frame_called]).
    destruct (workerThread eintr this _); cbn [keeps] in *; eauto using frame_trans.
  - rewrite (workerThread_pass i eintr this w k n) by auto.
    destruct (objs w !! this) as [o|]; [| done].
    destruct (is_running_ o); [| cbn [keeps]; apply frame_waited].
    specialize (IH (called this o (waited this i n w))).
    assert (frame w (called this o (waited this i n w)))
      by (eapply frame_trans; [apply frame_waited | apply frame_called]).
    destruct (workerThread eintr this _); cbn [keeps] in *; eauto using frame_trans.
  - rewrite workerThread_parked by done. apply frame_refl.
Qed.

Lemma resume_keeps eintr this t w : keeps (resume eintr this t w) w.
Proof.
  destruct t; try apply frame_refl.
  - apply workerThread_keeps.
  - rewrite resume_woken. destruct (objs w !! this) as [o|]; [| done].
    destruct (is_running_ o); [| apply frame_refl].
    pose proof (workerThread_keeps eintr this (called this o w)) as H.
    destruct (workerThread eintr this _); cbn [keeps] in *;
      eauto using frame_trans, frame_called.
  - rewrite resume_calling. destruct (objs w !! this) as [o|]; [| done].
    pose proof (workerThread_keeps eintr this (called this o w)) as H.
    destruct (workerThread eintr this _); cbn [keeps] in *;
      eauto using frame_trans, frame_called.
Qed.

Lemma frame_thread this t w :
  frame w (set_objs (alter (with_worker_thread t) this) w).
Proof.
  repeat split; try done. intros a. cbn. rewrite lookup_alter.
  case_decide as E; [| done]. rewrite <- E. by destruct (objs w !! this).
Qed.

Lemma worker_run_frame eintr this w : frame w (worker_run eintr this w).
Proof.
  unfold worker_run. destruct (objs w !! this) as [o|]; [| apply frame_refl].
  destruct (running _); [| apply frame_refl].
  pose proof (resume_keeps eintr this (worker_thread_ o) w) as H.
  destruct (resume eintr this _ w); cbn [keeps] in H;
    [| done | | apply frame_refl];
    (eapply frame_trans; [done | apply frame_thread]).
Qed.

Lemma worker_step_keeps this i w : keeps (worker_step this i w) w.
Proof.
  destruct (objs w !! this) as [o|] eqn:Ho;
    [| by unfold worker_step, bind, member; rewrite Ho].
  destruct (worker_thread_ o) eqn:Ht.
  - destruct (sems w !! this) as [k|] eqn:Hs;
      [| by unfold worker_step; mrun].
    assert (∃ n, i = true ∨ k = S n ∨ (i = false ∧ k = 0%nat)) as [n [Hi|[Hi|[-> ->]]]]
      by (exists (pred k); destruct i, k; auto).
    + rewrite (worker_step_alive this i w o k n) by auto. cbn [keeps].
      eapply frame_trans; [apply (frame_waited this i n) |].
      apply frame_set_objs; [by rewrite objs_waited | done].
    + rewrite (worker_step_alive this i w o k n) by auto. cbn [keeps].
      eapply frame_trans; [apply (frame_waited this i n) |].
      apply frame_set_objs; [by rewrite objs_waited | done].
    + rewrite (worker_step_parked this w o) by done. apply frame_refl.
  - rewrite (worker_step_woken this i w o) by done. cbn [keeps].
    by apply frame_set_objs.
  - rewrite (worker_step_calling this i w o) by done. cbn [keeps].
    eapply frame_trans; [apply (frame_called this o) |].
    apply frame_set_objs; [by rewrite objs_called | done].
  - rewrite (worker_step_returned this i w o); [apply frame_refl | done |].
    by rewrite Ht.
  - rewrite (worker_step_returned this i w o); [apply frame_refl | done |].
    by rewrite Ht.
Qed.

(** ** The constructor *)

Lemma append_log_emit e es w :
  append_log es (emit e w) = append_log (e :: es) w.
Proof. unfold append_log. cbn. by rewrite <- app_assoc. Qed.

(** A loop that finds every number taken has looked each of them up and
    changed nothing. *)
Lemma scan_taken this signos w :
  (∀ s, s ∈ signos → is_Some (signal_map_ w !! s)) →
  scan this signos w = Ret (-1) (append_log (EvMapFind <$> signos) w).
Proof.
  revert w. induction signos as [|s rest IH]; intros w Hall.
  - cbn. by rewrite append_log_nil.
  - cbn [scan]. unfold bind at 1, map_find.
    destruct (Hall s) as [p Hp]; [left |]. rewrite Hp.
    rewrite IH; [by rewrite append_log_emit |].
    intros x Hx. cbn. apply Hall. by right.
Qed.

(** A loop that meets a free number after the taken ones [l1] reserves it
    and stops. *)
Lemma scan_free this l1 s l2 w :
  (∀ x, x ∈ l1 → is_Some (signal_map_ w !! x)) →
  signal_map_ w !! s = None →
  scan this (l1 ++ s :: l2) w =
    Ret s (reserved s this (append_log (EvMapFind <$> l1 ++ [s]) w)).
Proof.
  revert w. induction l1 as [|x l1 IH]; intros w Hall Hs.
  - cbn [scan app]. unfold bind at 1, map_find. rewrite Hs. by mred.
  - cbn [scan app]. unfold bind at 1, map_find.
    destruct (Hall x) as [p Hp]; [left |]. rewrite Hp.
    rewrite IH; [by rewrite append_log_emit | | done].
    intros y Hy. cbn. apply Hall. by right.
Qed.

Lemma scan_cases (signos : list Z) (m : gmap Z ptr) :
  (∀ s, s ∈ signos → is_Some (m !! s)) ∨
  ∃ l1 s l2, signos = l1 ++ s :: l2 ∧
             (∀ x, x ∈ l1 → is_Some (m !! x)) ∧ m !! s = None.
Proof.
  induction signos as [|x rest IH].
  - left. intros s Hs. by apply elem_of_nil in Hs.
  - destruct (m !! x) as [p|] eqn:Hx.
    + destruct IH as [Hall | (l1 & s & l2 & -> & Hl1 & Hs)].
      * left. intros s Hs. apply elem_of_cons in Hs as [->|Hs]; eauto.
      * right. exists (x :: l1), s, l2. split; [done |]. split; [| done].
        intros y Hy. apply elem_of_cons in Hy as [->|Hy]; eauto.
    + right. exists [], x, rest. split; [done |]. split; [| done].
      intros y Hy. by apply elem_of_nil in Hy.
Qed.

Section PoolFacts.

Variables SIGRTMIN SIGRTMAX : Z.

(** Signal numbers are positive. *)
Hypothesis SIGRTMIN_pos : 0 < SIGRTMIN.

Lemma pool_pos signo : signo ∈ pool SIGRTMIN SIGRTMAX → 0 < signo.
Proof. unfold pool. rewrite elem_of_seqZ. lia. Qed.

Lemma ctor_null this timeout_ns s t th w :
  RobustTimer_ctor SIGRTMIN SIGRTMAX this timeout_ns None s t th w =
    Throw (invalid_argument "Callback function cannot be null.") w.
Proof. done. Qed.

Lemma ctor_sem_init_fails this timeout_ns f t th w :
  RobustTimer_ctor SIGRTMIN SIGRTMAX this timeout_ns (Some f) false t th w =
    Throw (runtime_error "Failed to initialize semaphore.") w.
Proof. done. Qed.

Lemma ctor_mutex_held this timeout_ns f t th w :
  signal_mutex_ w = true →
  RobustTimer_ctor SIGRTMIN SIGRTMAX this timeout_ns (Some f) true t th w =
    Block (set_sems <[this := 0%nat]> (emit (EvSemInit this) w)).
Proof. intros Hmx. unfold RobustTimer_ctor. mred. by rewrite Hmx. Qed.

Lemma ctor_exhausted this timeout_ns f t th w :
  exhausted SIGRTMIN SIGRTMAX w → signal_mutex_ w = false →
  RobustTimer_ctor SIGRTMIN SIGRTMAX this timeout_ns (Some f) true t th w =
    Throw (runtime_error "No available signal numbers for the timer.")
      (append_log ([EvSemInit this; EvLock] ++
                   (EvMapFind <$> pool SIGRTMIN SIGRTMAX) ++ [EvUnlock])
         (set_sems <[this := 0%nat]> w)).
Proof.
  intros Hex Hmx. unfold RobustTimer_ctor. mred. rewrite Hmx.
  rewrite scan_taken by done. cbn.
  destruct w; cbn in *. unfold append_log; cbn. subst.
  by rewrite <- !app_assoc.
Qed.

(** What a construction does that finds the free number [signo] after the
    taken ones [l1]: it returns, or it throws because [timer_create] failed
    or because the worker thread could not be started. *)
Lemma ctor_reserves this timeout_ns f t th w l1 signo l2 :
  pool SIGRTMIN SIGRTMAX = l1 ++ signo :: l2 →
  (∀ x, x ∈ l1 → is_Some (signal_map_ w !! x)) →
  signal_map_ w !! signo = None →
  signal_mutex_ w = false →
  ∃ w',
    RobustTimer_ctor SIGRTMIN SIGRTMAX this timeout_ns (Some f) true t th w =
      (if t then
         if th then Ret tt
         else Throw (system_error "resource_unavailable_try_again")
       else Throw (runtime_error "Failed to create timer.")) w' ∧
    objs w' = (if t && th then <[this := {| timer_id_ := next_timer w;
                                            timeout_ns_ := timeout_ns;
                                            callback_ := Some f;
                                            is_running_ := false;
                                            worker_thread_ := Alive;
                                            signal_number_ := signo |}]> (objs w)
               else objs w) ∧
    signal_map_ w' = (if t then <[signo := Ptr this]> (signal_map_ w)
                      else signal_map_ w) ∧
    signal_mutex_ w' = false ∧
    sems w' = <[this := 0%nat]> (sems w) ∧
    timers w' = (if t then <[next_timer w := OsTimer signo this its_zero]> (timers w)
                 else timers w) ∧
    next_timer w' = (if t then Pos.succ (next_timer w) else next_timer w) ∧
    sigactions w' = {[signo]} ∪ sigactions w ∧
    user w' = user w ∧
    log w' = log w ++
      [EvSemInit this; EvLock] ++ (EvMapFind <$> l1) ++
      [EvMapFind signo; EvSigaction signo; EvMapInsert signo this; EvUnlock]
      ++ (if t then [EvTimerCreate signo true; EvThreadStart this th]
          else [EvTimerCreate signo false; EvLock; EvMapErase signo; EvUnlock]).
Proof.
  intros Hpool Hl1 Hfree Hmx.
  assert ((signo =? -1) = false) as Hne.
  { apply Z.eqb_neq.
    assert (signo ∈ pool SIGRTMIN SIGRTMAX) as Hin
      by (rewrite Hpool; apply elem_of_app; right; by left).
    apply pool_pos in Hin. lia. }
  unfold RobustTimer_ctor. mred. rewrite Hmx, Hpool.
  rewrite scan_free by done. unfold reserved, append_log. mred. rewrite Hne.
  destruct t; [destruct th |]; mred; eexists; (split; [reflexivity |]); cbn.
  - rewrite fmap_app, <- !app_assoc. done.
  - rewrite fmap_app, <- !app_assoc. done.
  - rewrite fmap_app, <- !app_assoc. rewrite delete_insert_id by done. done.
Qed.

End PoolFacts.

(** ** The destructor *)

(** Once [stop] has returned, the object is stopped, and the destructor goes
    on as it does for a stopped object. *)
Lemma dtor_running eintr this w o :
  objs w !! this = Some o → is_running_ o = true →
  RobustTimer_dtor eintr this true w =
    RobustTimer_dtor eintr this true
      (set_timers (alter (with_setting its_zero) (timer_id_ o))
         (emit (EvTimerSettime (timer_id_ o) its_zero true)
            (set_objs <[this := with_is_running false o]> w))).
Proof.
  intros Ho Hr. unfold RobustTimer_dtor at 1 2. unfold bind at 1 10.
  rewrite (stop_running this true w o) by done.
  erewrite stop_stopped; [done | |]; cbn; [apply lookup_insert_eq | done].
Qed.

Lemma dtor_disarm_fails eintr this w o :
  objs w !! this = Some o → is_running_ o = true →
  RobustTimer_dtor eintr this false w =
    Throw (runtime_error "Failed to disarm the timer.")
      (emit (EvTimerSettime (timer_id_ o) its_zero false)
         (set_objs <[this := with_is_running false o]> w)).
Proof.
  intros Ho Hr. unfold RobustTimer_dtor. unfold bind at 1.
  rewrite (stop_running this false w o) by done. by destruct w.
Qed.

(** What the destructor does to a stopped object whose semaphore is
    initialised, when the worker has the passes it needs to get to its
    [break]: none when it is between [sem_wait] and the test of the flag or
    has returned, one when it is at the top of the loop or about to call the
    callback. *)
Lemma dtor_stopped eintr this ok w o n :
  objs w !! this = Some o → is_running_ o = false →
  sems w !! this = Some n → signal_mutex_ w = false →
  (worker_thread_ o = Alive ∨ worker_thread_ o = Calling → eintr ≠ []) →
  let i := default false (head eintr) in
  ∃ w',
    RobustTimer_dtor eintr this ok w = Ret tt w' ∧
    objs w' = delete this (objs w) ∧
    signal_map_ w' = delete (signal_number_ o) (signal_map_ w) ∧
    signal_mutex_ w' = false ∧
    sems w' = delete this (sems w) ∧
    timers w' = delete (timer_id_ o) (timers w) ∧
    next_timer w' = next_timer w ∧
    sigactions w' = sigactions w ∧
    user w' = match worker_thread_ o, callback_ o with
              | Calling, Some f => f (user w)
              | _, _ => user w
              end ∧
    log w' = log w ++
      [EvTimerDelete (timer_id_ o); EvSemPost this] ++
      match worker_thread_ o with
      | Alive => [if i then EvSemWaitEintr this else EvSemWait this;
                  EvThreadJoin this]
      | Woken => [EvThreadJoin this]
      | Calling =>
          match callback_ o with Some _ => [EvCallback this] | None => [] end ++
          [if i then EvSemWaitEintr this else EvSemWait this; EvThreadJoin this]
      | Finished => [EvThreadJoin this]
      | Joined => []
      end ++ [EvSemDestroy this; EvLock; EvMapErase (signal_number_ o); EvUnlock].
Proof.
  intros Ho Hr Hs Hmx Hpass i. unfold RobustTimer_dtor. unfold bind at 1.
  rewrite (stop_stopped this ok w o) by done. mrun.
  destruct (worker_thread_ o) eqn:Ht; mrun; cbn [resume]; mrun.
  - destruct eintr as [|j eintr]; [by destruct Hpass; auto |].
    subst i. cbn [head default resume workerThread]. destruct j; mrun.
    + eexists. split; [reflexivity |]. cbn.
      rewrite !delete_insert_eq, <- !app_assoc. done.
    + eexists. split; [reflexivity |]. cbn.
      rewrite !delete_insert_eq, <- !app_assoc. done.
  - eexists. split; [reflexivity |]. cbn.
    rewrite !delete_insert_eq, <- !app_assoc. done.
  - destruct eintr as [|j eintr]; [by destruct Hpass; auto |].
    subst i. cbn [head default resume workerThread].
    destruct (callback_ o) as [f|] eqn:Hcb; destruct j; mrun.
    + eexists. split; [reflexivity |]. cbn.
      rewrite !delete_insert_eq, <- !app_assoc. done.
    + eexists. split; [reflexivity |]. cbn.
      rewrite !delete_insert_eq, <- !app_assoc. done.
    + eexists. split; [reflexivity |]. cbn.
      rewrite !delete_insert_eq, <- !app_assoc. done.
    + eexists. split; [reflexivity |]. cbn.
      rewrite !delete_insert_eq, <- !app_assoc. done.
  - eexists. split; [reflexivity |]. cbn.
    rewrite !delete_insert_eq, <- !app_assoc. done.
  - eexists. split; [reflexivity |]. cbn.
    rewrite !delete_insert_eq, <- !app_assoc. done.
Qed.

(** A worker that needs a pass to get to its [break] and is given none keeps
    the destructor waiting in [join]. *)
Lemma dtor_waits this ok w o :
  objs w !! this = Some o → is_running_ o = false →
  worker_thread_ o = Alive ∨ worker_thread_ o = Calling →
  ∀ w', RobustTimer_dtor [] this ok w ≠ Ret tt w'.
Proof.
  intros Ho Hr Ht w'. unfold RobustTimer_dtor. unfold bind at 1.
  rewrite (stop_stopped this ok w o) by done. mrun.
  destruct (sems w !! this) as [n|]; [| done]. mrun.
  destruct Ht as [Ht|Ht]; mrun; cbn [resume workerThread]; mrun; [done |].
  by destruct (callback_ o).
Qed.

(** A destructor that returns has removed the object, its semaphore, its
    timer and its registry entry, and has released the mutex. *)
Lemma dtor_returns eintr this ok w w' o :
  objs w !! this = Some o → signal_mutex_ w = false →
  RobustTimer_dtor eintr this ok w = Ret tt w' →
  objs w' = delete this (objs w) ∧
  signal_map_ w' = delete (signal_number_ o) (signal_map_ w) ∧
  signal_mutex_ w' = false ∧
  sems w' = delete this (sems w) ∧
  timers w' = delete (timer_id_ o) (timers w) ∧
  next_timer w' = next_timer w ∧
  sigactions w' = sigactions w.
Proof.
  assert (∀ w o, objs w !! this = Some o → is_running_ o = false →
                 signal_mutex_ w = false →
                 RobustTimer_dtor eintr this ok w = Ret tt w' →
                 objs w' = delete this (objs w) ∧
                 signal_map_ w' = delete (signal_number_ o) (signal_map_ w) ∧
                 signal_mutex_ w' = false ∧
                 sems w' = delete this (sems w) ∧
                 timers w' = delete (timer_id_ o) (timers w) ∧
                 next_timer w' = next_timer w ∧
                 sigactions w' = sigactions w) as Hstopped.
  { clear w o. intros w o Ho Hr Hmx Hret.
    destruct (sems w !! this) as [n|] eqn:Hs.
    - assert (((worker_thread_ o = Alive ∨ worker_thread_ o = Calling) ∧ eintr = []) ∨
              (worker_thread_ o = Alive ∨ worker_thread_ o = Calling → eintr ≠ []))
        as [[Ht ->]|Hpass].
      { destruct (worker_thread_ o), eintr; auto; right; by intros [|]. }
      + by destruct (dtor_waits this ok w o Ho Hr Ht w').
      + destruct (dtor_stopped eintr this ok w o n)
          as (w1 & Hw1 & ? & ? & ? & ? & ? & ? & ? & _); try done.
        rewrite Hw1 in Hret. by injection Hret as <-.
    - exfalso. revert Hret. unfold RobustTimer_dtor. unfold bind at 1.
      rewrite (stop_stopped this ok w o) by done. by mrun. }
  intros Ho Hmx Hret. destruct (is_running_ o) eqn:Hr; [| eauto].
  destruct ok.
  - rewrite (dtor_running eintr this w o) in Hret by done.
    eapply Hstopped in Hret; [| cbn; apply lookup_insert_eq | done | done].
    cbn in Hret. by rewrite delete_insert_eq, delete_alter_eq in Hret.
  - by rewrite (dtor_disarm_fails eintr this w o) in Hret.
Qed.

(** What a destructor that meets no failing [timer_settime] does to a live
    object whose semaphore is initialised: it returns, whatever the state of
    the object and wherever its worker is. *)
Lemma dtor_effect i eintr this w o n :
  objs w !! this = Some o → sems w !! this = Some n →
  signal_mutex_ w = false →
  ∃ w',
    RobustTimer_dtor (i :: eintr) this true w = Ret tt w' ∧
    objs w' = delete this (objs w) ∧
    signal_map_ w' = delete (signal_number_ o) (signal_map_ w) ∧
    signal_mutex_ w' = false ∧
    sems w' = delete this (sems w) ∧
    timers w' = delete (timer_id_ o) (timers w) ∧
    user w' = match worker_thread_ o, callback_ o with
              | Calling, Some f => f (user w)
              | _, _ => user w
              end ∧
    log w' = log w ++
      (if is_running_ o then [EvTimerSettime (timer_id_ o) its_zero true] else []) ++
      [EvTimerDelete (timer_id_ o); EvSemPost this] ++
      match worker_thread_ o with
      | Alive => [if i then EvSemWaitEintr this else EvSemWait this;
                  EvThreadJoin this]
      | Woken => [EvThreadJoin this]
      | Calling =>
          match callback_ o with Some _ => [EvCallback this] | None => [] end ++
          [if i then EvSemWaitEintr this else EvSemWait this; EvThreadJoin this]
      | Finished => [EvThreadJoin this]
      | Joined => []
      end ++ [EvSemDestroy this; EvLock; EvMapErase (signal_number_ o); EvUnlock].
Proof.
  intros Ho Hs Hmx. destruct (is_running_ o) eqn:Hr.
  - rewrite (dtor_running (i :: eintr) this w o) by done.
    set (w1 := set_timers _ _).
    destruct (dtor_stopped (i :: eintr) this true w1 (with_is_running false o) n)
      as (w' & Hw' & H1 & H2 & H3 & H4 & H5 & _ & _ & H6 & H7);
      [cbn; apply lookup_insert_eq | done | exact Hs | exact Hmx | done |].
    exists w'. split; [exact Hw' |]. cbn in *.
    rewrite H1, H2, H3, H4, H5, H6, H7.
    rewrite delete_insert_eq, delete_alter_eq, <- !app_assoc. done.
  - destruct (dtor_stopped (i :: eintr) this true w o n)
      as (w' & Hw' & H1 & H2 & H3 & H4 & H5 & _ & _ & H6 & H7); try done.
    exists w'. split; [exact Hw' |]. cbn in H7. done.
Qed.

(** ** The invariant of the reachable worlds *)

Lemma owner_fmap (w : World) (a : positive) (signo : Z) :
  (∃ o, objs w !! a = Some o ∧ signal_number_ o = signo) ↔
  signal_number_ <$> objs w !! a = Some signo.
Proof.
  destruct (objs w !! a) as [o|]; cbn; split.
  - intros (o' & [= <-] & <-). done.
  - intros [= <-]. eauto.
  - intros (o' & [=] & _).
  - done.
Qed.

(** An object of [w'] is one of [w] with the same signal number, when the
    two worlds have the same signal numbers. *)
Lemma frame_owner w w' a o' :
  frame w w' → objs w' !! a = Some o' →
  ∃ o, objs w !! a = Some o ∧ signal_number_ o = signal_number_ o'.
Proof.
  intros (_ & _ & _ & Ho) Ho'. apply owner_fmap. rewrite <- Ho. by rewrite Ho'.
Qed.

Lemma frame_owner_back w w' a o :
  frame w w' → objs w !! a = Some o →
  ∃ o', objs w' !! a = Some o' ∧ signal_number_ o' = signal_number_ o.
Proof.
  intros (_ & _ & _ & Ho) Ha. apply owner_fmap. rewrite Ho. by rewrite Ha.
Qed.

Lemma registry_frame w w' : registry_inv w → frame w w' → registry_inv w'.
Proof.
  intros Hreg Hf signo p. pose proof Hf as (Hm & _). rewrite Hm, (Hreg signo p).
  split; intros (a & o & -> & Ha & Hsn).
  - destruct (frame_owner_back w w' a o Hf Ha) as (o' & ? & ?).
    exists a, o'. split; [done |]. split; [done | congruence].
  - destruct (frame_owner w w' a o Hf Ha) as (o' & ? & ?).
    exists a, o'. split; [done |]. split; [done | congruence].
Qed.


(** The numbers the loop passes before it reaches [signo] are those below
    it. *)
Lemma seqZ_before m n l1 signo l2 x :
  seqZ m n = l1 ++ signo :: l2 → m ≤ x < signo → x ∈ l1.
Proof.
  intros Hl Hx.
  assert (seqZ m n !! length l1 = Some signo) as Hs
    by (rewrite Hl; by apply list_lookup_middle).
  apply lookup_seqZ in Hs as [Hs Hlen].
  assert (seqZ m n !! Z.to_nat (x - m) = Some x) as Hi.
  { apply lookup_seqZ. lia. }
  rewrite Hl, lookup_app_l in Hi by lia.
  by eapply list_elem_of_lookup_2.
Qed.

Section Invariant.

Variables SIGRTMIN SIGRTMAX : Z.
Hypothesis SIGRTMIN_pos : 0 < SIGRTMIN.

Local Abbreviation wf := (wf SIGRTMIN SIGRTMAX).
Local Abbreviation pool := (pool SIGRTMIN SIGRTMAX).
Local Abbreviation ctor := (RobustTimer_ctor SIGRTMIN SIGRTMAX).
Local Abbreviation next := (next SIGRTMIN SIGRTMAX).
Local Abbreviation run := (run SIGRTMIN SIGRTMAX).
Local Abbreviation reachable := (reachable SIGRTMIN SIGRTMAX).

Lemma wf_empty : wf empty_world.
Proof.
  split; cbn.
  - intros a o H. by rewrite lookup_empty in H.
  - done.
  - intros a [o H]. by rewrite lookup_empty in H.
  - intros a o H. by rewrite lookup_empty in H.
Qed.

Lemma wf_frame w w' : wf w → frame w w' → wf w'.
Proof.
  intros [Hown Hmx Hsems Hpool] Hf. pose proof Hf as (Hm & Hx & Hs & _).
  split.
  - intros a o' Ha. destruct (frame_owner w w' a o' Hf Ha) as (o & Ho & <-).
    rewrite Hm. eauto.
  - congruence.
  - intros a [o' Ha]. destruct (frame_owner w w' a o' Hf Ha) as (o & Ho & _).
    apply Hs, Hsems. eauto.
  - intros a o' Ha. destruct (frame_owner w w' a o' Hf Ha) as (o & Ho & <-).
    eauto.
Qed.

(** The outcomes of a construction with a callback and an initialised
    semaphore, in a world whose mutex is free. *)
Lemma ctor_cases this timeout_ns f t th w :
  signal_mutex_ w = false →
  (exhausted SIGRTMIN SIGRTMAX w ∧
   ctor this timeout_ns (Some f) true t th w =
     Throw (runtime_error "No available signal numbers for the timer.")
       (append_log ([EvSemInit this; EvLock] ++ (EvMapFind <$> pool) ++ [EvUnlock])
          (set_sems <[this := 0%nat]> w))) ∨
  (∃ l1 signo l2 w',
     pool = l1 ++ signo :: l2 ∧
     (∀ x, x ∈ l1 → is_Some (signal_map_ w !! x)) ∧
     signal_map_ w !! signo = None ∧
     ctor this timeout_ns (Some f) true t th w =
       (if t then
          if th then Ret tt
          else Throw (system_error "resource_unavailable_try_again")
        else Throw (runtime_error "Failed to create timer.")) w' ∧
     objs w' = (if t && th then <[this := {| timer_id_ := next_timer w;
                                             timeout_ns_ := timeout_ns;
                                             callback_ := Some f;
                                             is_running_ := false;
                                             worker_thread_ := Alive;
                                             signal_number_ := signo |}]> (objs w)
                else objs w) ∧
     signal_map_ w' = (if t then <[signo := Ptr this]> (signal_map_ w)
                       else signal_map_ w) ∧
     signal_mutex_ w' = false ∧
     sems w' = <[this := 0%nat]> (sems w) ∧
     timers w' = (if t then <[next_timer w := OsTimer signo this its_zero]> (timers w)
                  else timers w) ∧
     next_timer w' = (if t then Pos.succ (next_timer w) else next_timer w) ∧
     sigactions w' = {[signo]} ∪ sigactions w ∧
     user w' = user w).
Proof.
  intros Hmx.
  destruct (scan_cases pool (signal_map_ w))
    as [Hall | (l1 & signo & l2 & Hl & Hl1 & Hfree)].
  - left. split; [done |]. by apply ctor_exhausted.
  - right.
    destruct (ctor_reserves SIGRTMIN SIGRTMAX SIGRTMIN_pos this timeout_ns f t th w
                l1 signo l2)
      as (w' & Hw' & H1 & H2 & H3 & H4 & H5 & H6 & H7 & H8 & _); try done.
    exists l1, signo, l2, w'. done.
Qed.

(** The world a construction leaves, whether it returns or throws. *)
Lemma ctor_world this timeout_ns cb s t th w w' :
  signal_mutex_ w = false →
  (ctor this timeout_ns cb s t th w = Ret tt w' ∨
   ∃ e, ctor this timeout_ns cb s t th w = Throw e w') →
  w' = w ∨
  w' = append_log ([EvSemInit this; EvLock] ++ (EvMapFind <$> pool) ++ [EvUnlock])
         (set_sems <[this := 0%nat]> w) ∨
  ∃ f signo,
    cb = Some f ∧ signo ∈ pool ∧ signal_map_ w !! signo = None ∧
    (∀ x, SIGRTMIN ≤ x < signo → is_Some (signal_map_ w !! x)) ∧
    objs w' = (if t && th then <[this := {| timer_id_ := next_timer w;
                                            timeout_ns_ := timeout_ns;
                                            callback_ := Some f;
                                            is_running_ := false;
                                            worker_thread_ := Alive;
                                            signal_number_ := signo |}]> (objs w)
               else objs w) ∧
    signal_map_ w' = (if t then <[signo := Ptr this]> (signal_map_ w)
                      else signal_map_ w) ∧
    signal_mutex_ w' = false ∧
    sems w' = <[this := 0%nat]> (sems w) ∧
    timers w' = (if t then <[next_timer w := OsTimer signo this its_zero]> (timers w)
                 else timers w) ∧
    next_timer w' = (if t then Pos.succ (next_timer w) else next_timer w) ∧
    sigactions w' = {[signo]} ∪ sigactions w ∧
    user w' = user w ∧
    (ctor this timeout_ns cb s t th w = Ret tt w' ↔ t && th = true).
Proof.
  intros Hmx Hrun. destruct cb as [f|]; cycle 1.
  { left. destruct Hrun as [Hrun|[e Hrun]]; [done |]. by injection Hrun as _ <-. }
  destruct s; cycle 1.
  { left. destruct Hrun as [Hrun|[e Hrun]]; [done |]. by injection Hrun as _ <-. }
  destruct (ctor_cases this timeout_ns f t th w Hmx)
    as [[_ Hc] | (l1 & signo & l2 & w1 & Hl & Hl1 & Hfree & Hc & H)].
  - right. left. rewrite Hc in Hrun.
    destruct Hrun as [Hrun|[e Hrun]]; [done |]. by injection Hrun as _ <-.
  - right. right. rewrite Hc in Hrun.
    assert (w' = w1) as -> by (destruct t, th, Hrun as [|[e ?]]; congruence).
    exists f, signo. split; [done |].
    split; [rewrite Hl; apply elem_of_app; right; by left |].
    split; [done |]. split.
    { intros x Hx. apply Hl1. by apply (seqZ_before _ _ _ _ _ _ Hl). }
    destruct H as (? & ? & ? & ? & ? & ? & ? & ?).
    repeat (split; [done |]). rewrite Hc. by destruct t, th.
Qed.

Lemma wf_ctor this timeout_ns cb s t th w w' :
  wf w → objs w !! this = None →
  (ctor this timeout_ns cb s t th w = Ret tt w' ∨
   ∃ e, ctor this timeout_ns cb s t th w = Throw e w') →
  wf w'.
Proof.
  intros Hwf Hfresh Hrun. pose proof Hwf as [Hown Hmx Hsems Hpool].
  destruct (ctor_world this timeout_ns cb s t th w w' Hmx Hrun)
    as [-> | [-> | (f & signo & _ & Hin & Hfree & _ & Hob & Hmp & Hx & Hsm & _)]].
  - done.
  - eapply wf_frame; [done |]. eauto using frame_trans with frames.
  - assert (∀ a o, objs w !! a = Some o → signo ≠ signal_number_ o) as Hother.
    { intros a o Ha E. apply Hown in Ha. congruence. }
    split.
    + intros a o. rewrite Hob, Hmp. destruct t, th; cbn [andb].
      * intros Ha. destruct (decide (a = this)) as [->|Hne].
        -- rewrite lookup_insert_eq in Ha. injection Ha as <-. cbn.
           apply lookup_insert_eq.
        -- rewrite lookup_insert_ne in Ha by done.
           rewrite lookup_insert_ne; eauto.
      * intros Ha. rewrite lookup_insert_ne; eauto.
      * eauto.
      * eauto.
    + done.
    + intros a. rewrite Hob, Hsm. intros Ha.
      destruct (decide (a = this)) as [->|Hne].
      * rewrite lookup_insert_eq. eauto.
      * rewrite lookup_insert_ne by done. apply Hsems.
        destruct (t && th); [by rewrite lookup_insert_ne in Ha | done].
    + intros a o. rewrite Hob. destruct (t && th); [| eauto].
      intros Ha. destruct (decide (a = this)) as [->|Hne].
      * rewrite lookup_insert_eq in Ha. by injection Ha as <-.
      * rewrite lookup_insert_ne in Ha by done. eauto.
Qed.

Lemma wf_dtor eintr this ok w w' :
  wf w → RobustTimer_dtor eintr this ok w = Ret tt w' → wf w'.
Proof.
  intros [Hown Hmx Hsems Hpool] Hret.
  destruct (objs w !! this) as [o|] eqn:Ho;
    [| by revert Hret; unfold RobustTimer_dtor; mrun].
  destruct (dtor_returns eintr this ok w w' o) as (Hob & Hmp & Hx & Hsm & _);
    try done.
  split.
  - intros a o'. rewrite Hob, Hmp. intros Ha.
    apply lookup_delete_Some in Ha as [Hne Ha].
    rewrite lookup_delete_ne; [eauto |].
    intros E. apply Hown in Ha, Ho. congruence.
  - done.
  - intros a. rewrite Hob, Hsm. intros [o' Ha].
    apply lookup_delete_Some in Ha as [Hne Ha].
    rewrite lookup_delete_ne by done. eauto.
  - intros a o'. rewrite Hob. intros Ha.
    apply lookup_delete_Some in Ha as [Hne Ha]. eauto.
Qed.

(** Every operation but a construction and a destruction leaves the
    registry, the mutex and the signal numbers as they are. *)
Lemma next_frame o w w' :
  (∀ this timeout_ns cb s t th, o ≠ Create this timeout_ns cb s t th) →
  (∀ eintr this ok, o ≠ Destroy eintr this ok) →
  next o w = Some w' → frame w w'.
Proof.
  intros Hc Hd. unfold next. destruct o; cbn [exec].
  - by destruct (Hc this timeout_ns cb sem_init_ok timer_create_ok thread_ok).
  - by destruct (Hd eintr this settime_ok).
  - pose proof (start_keeps this settime_ok w) as Hk.
    destruct (start _ _ w); try done; by intros [= <-].
  - pose proof (stop_keeps this settime_ok w) as Hk.
    destruct (stop _ _ w); try done; by intros [= <-].
  - pose proof (changeTimeout_keeps this new_timeout_ns settime_ok w) as Hk.
    destruct (changeTimeout _ _ _ w); try done; by intros [= <-].
  - pose proof (signalHandler_keeps signo w) as Hk.
    destruct (signalHandler _ w); try done; by intros [= <-].
  - pose proof (timer_expire_keeps tid w) as Hk.
    destruct (timer_expire _ w); try done; by intros [= <-].
  - intros [= <-]. apply worker_run_frame.
  - pose proof (worker_step_keeps this eintr w) as Hk.
    destruct (worker_step _ _ w); try done; by intros [= <-].
Qed.

(** What a construction and a destruction that have a successor are. *)
Lemma next_create this timeout_ns cb s t th w w' :
  next (Create this timeout_ns cb s t th) w = Some w' →
  objs w !! this = None ∧
  (ctor this timeout_ns cb s t th w = Ret tt w' ∨
   ∃ e, ctor this timeout_ns cb s t th w = Throw e w').
Proof.
  unfold next. cbn [exec].
  destruct (ctor _ _ _ _ _ _ w) as [[] w1|e w1|w1|] eqn:Hc; try done;
    (destruct (objs w !! this) eqn:Hfresh; [done |]);
    intros [= <-]; eauto.
Qed.

Lemma next_destroy eintr this ok w w' :
  next (Destroy eintr this ok) w = Some w' →
  RobustTimer_dtor eintr this ok w = Ret tt w'.
Proof.
  unfold next. cbn [exec].
  destruct (RobustTimer_dtor _ _ _ w) as [[] w1|e w1|w1|]; try done.
  by intros [= <-].
Qed.

Lemma op_cases (o : op) :
  (∃ this timeout_ns cb s t th, o = Create this timeout_ns cb s t th) ∨
  (∃ eintr this ok, o = Destroy eintr this ok) ∨
  ((∀ this timeout_ns cb s t th, o ≠ Create this timeout_ns cb s t th) ∧
   (∀ eintr this ok, o ≠ Destroy eintr this ok)).
Proof.
  destruct o; [left | right; left | ..]; eauto 10;
    right; right; split; intros; discriminate.
Qed.

Lemma wf_next o w w' : wf w → next o w = Some w' → wf w'.
Proof.
  intros Hwf Hn.
  destruct (op_cases o)
    as [(this & timeout_ns & cb & s & t & th & ->) |
        [(eintr & this & ok & ->) | [Hc Hd]]].
  - apply next_create in Hn as [Hfresh Hrun]. eauto using wf_ctor.
  - apply next_destroy in Hn. eauto using wf_dtor.
  - eauto using wf_frame, next_frame.
Qed.

Lemma reachable_wf w : reachable w → wf w.
Proof. induction 1; eauto using wf_empty, wf_next. Qed.

(** ** The registry, as long as every worker thread starts *)

Lemma registry_next o w w' :
  wf w → registry_inv w →
  (∀ this timeout_ns cb s t, o ≠ Create this timeout_ns cb s t false) →
  next o w = Some w' → registry_inv w'.
Proof.
  intros Hwf Hreg Hth Hn. pose proof Hwf as [Hown Hmx _ _].
  destruct (op_cases o)
    as [(this & timeout_ns & cb & s & t & th & ->) |
        [(eintr & this & ok & ->) | [Hc Hd]]].
  - apply next_create in Hn as [Hfresh Hrun].
    assert (th = true) as ->
      by (destruct th; [done | by destruct (Hth this timeout_ns cb s t)]).
    destruct (ctor_world this timeout_ns cb s t true w w' Hmx Hrun)
      as [-> | [-> | (f & signo & _ & Hin & Hfree & _ & Hob & Hmp & _)]].
    + done.
    + eapply registry_frame; [done |]. eauto using frame_trans with frames.
    + rewrite andb_true_r in Hob. intros x p. rewrite Hmp, Hob.
      destruct t; [| apply Hreg]. split.
      * intros Hx. destruct (decide (x = signo)) as [->|Hne].
        -- rewrite lookup_insert_eq in Hx. injection Hx as <-.
           eexists this, _. by rewrite lookup_insert_eq.
        -- rewrite lookup_insert_ne in Hx by done.
           apply Hreg in Hx as (a & o & -> & Ha & Hsn).
           exists a, o. rewrite lookup_insert_ne by congruence. done.
      * intros (a & o & -> & Ha & Hsn).
        destruct (decide (a = this)) as [->|Hne].
        -- rewrite lookup_insert_eq in Ha. injection Ha as <-. cbn in Hsn.
           subst x. apply lookup_insert_eq.
        -- rewrite lookup_insert_ne in Ha by done.
           assert (signal_map_ w !! x = Some (Ptr a)) as Hx
             by (apply Hreg; eauto).
           rewrite lookup_insert_ne; [done | congruence].
  - apply next_destroy in Hn.
    destruct (objs w !! this) as [o|] eqn:Ho;
      [| by revert Hn; unfold RobustTimer_dtor; mrun].
    destruct (dtor_returns eintr this ok w w' o) as (Hob & Hmp & _); try done.
    assert (signal_map_ w !! signal_number_ o = Some (Ptr this)) as Hthis by eauto.
    intros x p. rewrite Hmp, Hob. split.
    + intros Hx. apply lookup_delete_Some in Hx as [Hne Hx].
      apply Hreg in Hx as (a & o' & -> & Ha & Hsn).
      exists a, o'. rewrite lookup_delete_ne; [done |].
      intros <-. congruence.
    + intros (a & o' & -> & Ha & Hsn).
      apply lookup_delete_Some in Ha as [Hne Ha].
      assert (signal_map_ w !! x = Some (Ptr a)) as Hx by (apply Hreg; eauto).
      rewrite lookup_delete_ne; [done |]. intros <-. congruence.
  - eauto using registry_frame, next_frame.
Qed.


Lemma registry_empty : registry_inv empty_world.
Proof.
  intros signo p. cbn. rewrite lookup_empty. split; [done |].
  intros (a & o & _ & H & _). by rewrite lookup_empty in H.
Qed.

Lemma wf_run ops w w' : wf w → run ops w = Some w' → wf w'.
Proof.
  revert w. induction ops as [|o ops IH]; intros w Hwf.
  - by intros [= <-].
  - cbn. destruct (next o w) as [w1|] eqn:Hn; [| done]. eauto using wf_next.
Qed.

Lemma registry_run ops w w' :
  wf w → registry_inv w → threads_start ops → run ops w = Some w' →
  registry_inv w'.
Proof.
  revert w. induction ops as [|o ops IH]; intros w Hwf Hreg Hth.
  - by intros [= <-].
  - cbn. destruct (next o w) as [w1|] eqn:Hn; [| done].
    apply IH.
    + eauto using wf_next.
    + apply (registry_next o w); [done | done | | done].
      intros this timeout_ns cb s t ->.
      apply (Hth this timeout_ns cb s t). by left.
    + intros this timeout_ns cb s t Hin.
      apply (Hth this timeout_ns cb s t). by right.
Qed.

(** The reachable worlds are those a sequence of operations leads to. *)
Lemma reachable_run ops w w' :
  reachable w → run ops w = Some w' → reachable w'.
Proof.
  revert w. induction ops as [|o ops IH]; intros w Hw.
  - by intros [= <-].
  - cbn. destruct (next o w) as [w1|] eqn:Hn; [| done].
    apply IH. by eapply reach_next.
Qed.

Lemma run_app ops1 ops2 w w1 :
  run ops1 w = Some w1 → run (ops1 ++ ops2) w = run ops2 w1.
Proof.
  revert w. induction ops1 as [|o ops1 IH]; intros w.
  - by intros [= <-].
  - cbn. destruct (next o w) as [w0|]; [| done]. apply IH.
Qed.

Lemma reachable_ops w : reachable w → ∃ ops, run ops empty_world = Some w.
Proof.
  induction 1 as [|o w w' Hw [ops IH] Hn].
  - by exists [].
  - exists (ops ++ [o]). rewrite (run_app ops [o] empty_world w IH). cbn.
    by rewrite Hn.
Qed.

End Invariant.

(** * The claims *)

(** ** [start] *)

(** C7 does not hold of [start] for every configured timeout:
    the timer of [w_zero] is stopped and its timeout is zero.  [start()]
    sets the running flag, but the one [timer_settime] call it makes passes
    the all-zero setting, the same call [disarmTimer] makes: the timer is
    left disarmed, and its expiry delivers nothing. *)
Lemma C7_zero_timeout_arms_nothing :
  let w' := after (start 1 true) w_zero in
  timeout_ns_ <$> objs w_zero !! 1%positive = Some 0 ∧
  is_running_ <$> objs w_zero !! 1%positive = Some false ∧
  start 1 true w_zero = Ret tt w' ∧
  is_running_ <$> objs w' !! 1%positive = Some true ∧
  trace (start 1 true) w_zero = [EvTimerSettime 1 its_zero true] ∧
  trace (disarmTimer 1 true) w_zero = [EvTimerSettime 1 its_zero true] ∧
  setting <$> timers w' !! 1%positive = Some its_zero ∧
  timer_expire 1 w' = Ret tt w'.
Proof. cbv zeta. conjuncts; vm_compute; reflexivity. Qed.

(** C7 (as amended).  [start()] on a stopped timer sets the running flag and
    makes one [timer_settime] call.  For a positive configured timeout the
    setting it passes is the timeout split into whole seconds and less than
    10^9 nanoseconds, with a zero interval; when the call succeeds this is
    the timer's new setting, the timer is armed, and its expiry delivers the
    signal.  For a zero timeout the setting it passes is the all-zero one:
    the timer is left disarmed and its expiry delivers nothing, although the
    flag is set.  On a running timer [start()] returns at once and leaves
    the whole world as it was: no call is made and the pending expiry is not
    touched. *)
Theorem C7_start_idempotent this w o t :
  objs w !! this = Some o → timers w !! timer_id_ o = Some t →
  (is_running_ o = false →
   ∃ w',
     start this true w = Ret tt w' ∧
     objs w' = <[this := with_is_running true o]> (objs w) ∧
     (0 < timeout_ns_ o →
      ∃ sec nsec,
        let its := {| it_value := {| tv_sec := sec; tv_nsec := nsec |};
                      it_interval := {| tv_sec := 0; tv_nsec := 0 |} |} in
        sec * 1000000000 + nsec = timeout_ns_ o ∧
        0 ≤ sec ∧ 0 ≤ nsec < 1000000000 ∧
        timers w' = <[timer_id_ o := {| sigev_signo := sigev_signo t;
                                        sival_ptr := sival_ptr t;
                                        setting := its |}]> (timers w) ∧
        trace (start this true) w = [EvTimerSettime (timer_id_ o) its true] ∧
        timer_expire (timer_id_ o) w' =
          signalHandler (sigev_signo t)
            (set_timers (alter (with_setting its_zero) (timer_id_ o)) w')) ∧
     (timeout_ns_ o = 0 →
      timers w' = <[timer_id_ o := {| sigev_signo := sigev_signo t;
                                      sival_ptr := sival_ptr t;
                                      setting := its_zero |}]> (timers w) ∧
      trace (start this true) w = [EvTimerSettime (timer_id_ o) its_zero true] ∧
      timer_expire (timer_id_ o) w' = Ret tt w')) ∧
  (is_running_ o = false →
   ∀ ok, ∃ its,
     trace (start this ok) w = [EvTimerSettime (timer_id_ o) its ok] ∧
     tv_sec (it_value its) * 1000000000 + tv_nsec (it_value its) = timeout_ns_ o ∧
     it_interval its = {| tv_sec := 0; tv_nsec := 0 |}) ∧
  (is_running_ o = true →
   ∀ ok, start this ok w = Ret tt w ∧ trace (start this ok) w = []) ∧
  (∀ ok w', start this ok w = Ret tt w' → ∀ ok', start this ok' w' = Ret tt w').
Proof.
  intros Ho Ht. split; [| split; [| split]]; cycle 1.
  { intros Hr ok. exists (one_shot (timeout_ns_ o)).
    split; [| apply one_shot_sum].
    apply trace_of_log. unfold after.
    rewrite (start_stopped this ok w o) by done. by destruct ok. }
  - intros Hr ok. split; [by apply (start_running this ok w o) |].
    apply trace_of_log. unfold after.
    rewrite (start_running this ok w o) by done. cbn. by rewrite app_nil_r.
  - intros ok w' Hret ok'. destruct (is_running_ o) eqn:Hr.
    + rewrite (start_running this ok w o) in Hret by done.
      injection Hret as <-. by apply (start_running this ok' w o).
    + rewrite (start_stopped this ok w o) in Hret by done.
      destruct ok; [| done]. injection Hret as <-.
      eapply start_running; cbn; [apply lookup_insert_eq | done].
  - intros Hr. eexists. split; [by apply start_stopped |].
    split; [done |].
    assert (∀ its,
              alter (with_setting its) (timer_id_ o) (timers w) =
              <[timer_id_ o := {| sigev_signo := sigev_signo t;
                                  sival_ptr := sival_ptr t;
                                  setting := its |}]> (timers w)) as Halter.
    { intros its. apply map_eq. intros i.
      destruct (decide (i = timer_id_ o)) as [->|Hne].
      - by rewrite lookup_alter_eq, lookup_insert_eq, Ht.
      - by rewrite lookup_alter_ne, lookup_insert_ne. }
    split.
    + intros Hpos.
      destruct (one_shot_positive (timeout_ns_ o) Hpos)
        as (sec & nsec & Hits & Hsum & Hsec & Hnsec & Harmed).
      exists sec, nsec. cbv zeta. rewrite Hits.
      split; [done |]. split; [done |]. split; [done |].
      split; [apply Halter |]. split.
      * apply trace_of_log. unfold after.
        rewrite (start_stopped this true w o) by done. cbn. by rewrite Hits.
      * unfold timer_expire at 1. cbn. rewrite lookup_alter_eq, Ht. cbn.
        by rewrite Harmed.
    + intros Hzero.
      assert (one_shot (timeout_ns_ o) = its_zero) as Hits by (by rewrite Hzero).
      rewrite Hits. split; [apply Halter |]. split.
      * apply trace_of_log. unfold after.
        rewrite (start_stopped this true w o) by done. cbn. by rewrite Hits.
      * unfold timer_expire. cbn. by rewrite lookup_alter_eq, Ht.
Qed.

Lemma C7_start_idempotent_witness :
  (∃ w' sec nsec,
     start 1 true w_one = Ret tt w' ∧
     sec * 1000000000 + nsec = 50000000 ∧ 0 ≤ sec ∧ 0 ≤ nsec < 1000000000 ∧
     trace (start 1 true) w_one =
       [EvTimerSettime 1 {| it_value := {| tv_sec := sec; tv_nsec := nsec |};
                            it_interval := {| tv_sec := 0; tv_nsec := 0 |} |} true]) ∧
  start 1 true w_running = Ret tt w_running.
Proof.
  destruct (C7_start_idempotent 1 w_one
              {| timer_id_ := 1; timeout_ns_ := 50000000; callback_ := tick;
                 is_running_ := false; worker_thread_ := Alive;
                 signal_number_ := 34 |}
              {| sigev_signo := 34; sival_ptr := 1; setting := its_zero |}
              ltac:(vm_compute; reflexivity) ltac:(vm_compute; reflexivity))
    as (Hstopped & _ & _ & Hagain).
  destruct (Hstopped ltac:(reflexivity)) as (w' & Hw' & _ & Hpos & _).
  destruct (Hpos ltac:(cbn; lia))
    as (sec & nsec & Hsum & Hsec & Hnsec & _ & Htr & _).
  split; [exists w', sec, nsec; auto |].
  apply (Hagain true). vm_compute. reflexivity.
Defined.

(** ** [changeTimeout] *)

(** C6 does not hold of [changeTimeout] for every duration:
    on the running timer of [w_running], [changeTimeout(0)] stores 0 and
    makes one [timer_settime] call, but with the all-zero setting, the same
    call [stop()] makes to disarm.  The expiry that was pending is
    cancelled and none is scheduled in its place, while the running flag
    stays set. *)
Lemma C6_zero_duration_disarms :
  let w' := after (changeTimeout 1 0 true) w_running in
  is_running_ <$> objs w_running !! 1%positive = Some true ∧
  timer_expire 1 w_running ≠ Ret tt w_running ∧
  changeTimeout 1 0 true w_running = Ret tt w' ∧
  timeout_ns_ <$> objs w' !! 1%positive = Some 0 ∧
  is_running_ <$> objs w' !! 1%positive = Some true ∧
  trace (changeTimeout 1 0 true) w_running = [EvTimerSettime 1 its_zero true] ∧
  trace (stop 1 true) w_running = [EvTimerSettime 1 its_zero true] ∧
  setting <$> timers w' !! 1%positive = Some its_zero ∧
  timer_expire 1 w' = Ret tt w'.
Proof.
  cbv zeta. conjuncts; try (vm_compute; reflexivity).
  vm_compute. discriminate.
Qed.

(** C6 (as amended).  [changeTimeout(d)] stores [d] as the configured
    timeout, whatever [d] is.  On a running timer it calls [timer_settime]
    at once.  For a positive [d] the setting it passes is [d] split into
    whole seconds and less than 10^9 nanoseconds, with a zero interval; when
    the call succeeds this setting replaces whatever setting the timer had,
    and the timer is armed: its expiry delivers the signal.  For [d = 0] the
    setting it passes is the all-zero one, which cancels the pending expiry
    and schedules none.  On a stopped timer it makes no call, and the next
    [start()] makes the call with [d]. *)
Theorem C6_changeTimeout this d w o t :
  objs w !! this = Some o → timers w !! timer_id_ o = Some t →
  (∀ ok, timeout_ns_ <$> objs (after (changeTimeout this d ok) w) !! this = Some d) ∧
  (is_running_ o = true →
   ∃ w',
     changeTimeout this d true w = Ret tt w' ∧
     objs w' = <[this := with_timeout_ns d o]> (objs w) ∧
     (0 < d →
      ∃ sec nsec,
        let its := {| it_value := {| tv_sec := sec; tv_nsec := nsec |};
                      it_interval := {| tv_sec := 0; tv_nsec := 0 |} |} in
        sec * 1000000000 + nsec = d ∧ 0 ≤ sec ∧ 0 ≤ nsec < 1000000000 ∧
        timers w' = <[timer_id_ o := {| sigev_signo := sigev_signo t;
                                        sival_ptr := sival_ptr t;
                                        setting := its |}]> (timers w) ∧
        trace (changeTimeout this d true) w =
          [EvTimerSettime (timer_id_ o) its true] ∧
        timer_expire (timer_id_ o) w' =
          signalHandler (sigev_signo t)
            (set_timers (alter (with_setting its_zero) (timer_id_ o)) w')) ∧
     (d = 0 →
      timers w' = <[timer_id_ o := {| sigev_signo := sigev_signo t;
                                      sival_ptr := sival_ptr t;
                                      setting := its_zero |}]> (timers w) ∧
      trace (changeTimeout this d true) w =
        [EvTimerSettime (timer_id_ o) its_zero true] ∧
      timer_expire (timer_id_ o) w' = Ret tt w')) ∧
  (is_running_ o = true →
   ∀ ok, ∃ its,
     trace (changeTimeout this d ok) w = [EvTimerSettime (timer_id_ o) its ok] ∧
     tv_sec (it_value its) * 1000000000 + tv_nsec (it_value its) = d ∧
     it_interval its = {| tv_sec := 0; tv_nsec := 0 |}) ∧
  (is_running_ o = false →
   ∀ ok,
     changeTimeout this d ok w = Ret tt (set_objs <[this := with_timeout_ns d o]> w) ∧
     trace (changeTimeout this d ok) w = [] ∧
     (0 < d →
      ∃ sec nsec,
        sec * 1000000000 + nsec = d ∧ 0 ≤ sec ∧ 0 ≤ nsec < 1000000000 ∧
        trace (start this true) (set_objs <[this := with_timeout_ns d o]> w) =
          [EvTimerSettime (timer_id_ o)
             {| it_value := {| tv_sec := sec; tv_nsec := nsec |};
                it_interval := {| tv_sec := 0; tv_nsec := 0 |} |} true])).
Proof.
  intros Ho Ht. split; [| split; [| split]]; cycle 2.
  { intros Hr ok. exists (one_shot d). split; [| apply one_shot_sum].
    apply trace_of_log. unfold after.
    rewrite (changeTimeout_running this d ok w o) by done. by destruct ok. }
  - intros Hr ok. split; [by apply changeTimeout_stopped |]. split.
    + apply trace_of_log. unfold after.
      rewrite (changeTimeout_stopped this d ok w o) by done. cbn.
      by rewrite app_nil_r.
    + intros Hpos.
      destruct (one_shot_positive d Hpos)
        as (sec & nsec & Hits & Hsum & Hsec & Hnsec & _).
      exists sec, nsec. split; [done |]. split; [done |]. split; [done |].
      apply trace_of_log. unfold after.
      erewrite start_stopped; [| cbn; apply lookup_insert_eq | done].
      cbn. by rewrite Hits.
  - intros ok. unfold after. destruct (is_running_ o) eqn:Hr.
    + rewrite (changeTimeout_running this d ok w o) by done.
      destruct ok; cbn; by rewrite lookup_insert_eq.
    + rewrite (changeTimeout_stopped this d ok w o) by done.
      cbn. by rewrite lookup_insert_eq.
  - intros Hr. eexists. split; [by apply changeTimeout_running |].
    split; [done |].
    assert (∀ its,
              alter (with_setting its) (timer_id_ o) (timers w) =
              <[timer_id_ o := {| sigev_signo := sigev_signo t;
                                  sival_ptr := sival_ptr t;
                                  setting := its |}]> (timers w)) as Halter.
    { intros its. apply map_eq. intros i.
      destruct (decide (i = timer_id_ o)) as [->|Hne].
      - by rewrite lookup_alter_eq, lookup_insert_eq, Ht.
      - by rewrite lookup_alter_ne, lookup_insert_ne. }
    split.
    + intros Hpos.
      destruct (one_shot_positive d Hpos)
        as (sec & nsec & Hits & Hsum & Hsec & Hnsec & Harmed).
      exists sec, nsec. cbv zeta. rewrite Hits.
      split; [done |]. split; [done |]. split; [done |].
      split; [apply Halter |]. split.
      * apply trace_of_log. unfold after.
        rewrite (changeTimeout_running this d true w o) by done. cbn.
        by rewrite Hits.
      * unfold timer_expire at 1. cbn. rewrite lookup_alter_eq, Ht. cbn.
        by rewrite Harmed.
    + intros ->. change (one_shot 0) with its_zero.
      split; [apply Halter |]. split.
      * apply trace_of_log. unfold after.
        by rewrite (changeTimeout_running this 0 true w o).
      * unfold timer_expire. cbn. by rewrite lookup_alter_eq, Ht.
Qed.

Lemma C6_changeTimeout_witness :
  timeout_ns_ <$> objs (after (changeTimeout 1 2500000000 true) w_running) !! 1%positive
    = Some 2500000000 ∧
  (∃ sec nsec,
     sec * 1000000000 + nsec = 2500000000 ∧ 0 ≤ sec ∧ 0 ≤ nsec < 1000000000 ∧
     trace (changeTimeout 1 2500000000 true) w_running =
       [EvTimerSettime 1 {| it_value := {| tv_sec := sec; tv_nsec := nsec |};
                            it_interval := {| tv_sec := 0; tv_nsec := 0 |} |} true]) ∧
  trace (changeTimeout 1 2500000000 true) w_one = [].
Proof.
  destruct (C6_changeTimeout 1 2500000000 w_running
              {| timer_id_ := 1; timeout_ns_ := 50000000; callback_ := tick;
                 is_running_ := true; worker_thread_ := Alive;
                 signal_number_ := 34 |}
              {| sigev_signo := 34; sival_ptr := 1; setting := one_shot 50000000 |}
              ltac:(vm_compute; reflexivity) ltac:(vm_compute; reflexivity))
    as (Hstore & Hrun & _).
  destruct (Hrun ltac:(reflexivity)) as (w' & _ & _ & Hpos & _).
  destruct (Hpos ltac:(lia)) as (sec & nsec & Hsum & Hsec & Hnsec & _ & Htr & _).
  split; [apply Hstore |]. split; [exists sec, nsec; auto |].
  vm_compute. reflexivity.
Defined.

(** ** A failing [timer_settime] *)

(** C9. When [timer_settime] fails inside [start()], the exception reaches
    the caller with the running flag already set and the timer setting
    unchanged; a further [start()] then returns at once without any call,
    and only after [stop()] does [start()] call [timer_settime] again.  When
    it fails inside [changeTimeout(d)], the exception reaches the caller with
    [d] already stored. *)
Theorem C9_arm_failure_not_rolled_back this d w o :
  objs w !! this = Some o →
  (is_running_ o = false →
   ∃ w1, start this false w = Throw (runtime_error "Failed to arm the timer.") w1 ∧
         is_running_ <$> objs w1 !! this = Some true ∧
         timers w1 = timers w ∧
         (∀ ok, start this ok w1 = Ret tt w1) ∧
         trace (bind (stop this true) (λ _, start this true)) w1 =
           [EvTimerSettime (timer_id_ o) its_zero true;
            EvTimerSettime (timer_id_ o) (one_shot (timeout_ns_ o)) true]) ∧
  (is_running_ o = true →
   ∃ w2, changeTimeout this d false w =
           Throw (runtime_error "Failed to arm the timer.") w2 ∧
         timeout_ns_ <$> objs w2 !! this = Some d ∧
         is_running_ <$> objs w2 !! this = Some true ∧
         timers w2 = timers w).
Proof.
  intros Ho. split.
  - intros Hr.
    set (w1 := set_timers (λ m, m)
                 (emit (EvTimerSettime (timer_id_ o) (one_shot (timeout_ns_ o)) false)
                    (set_objs <[this := with_is_running true o]> w))).
    assert (objs w1 !! this = Some (with_is_running true o)) as Ho1
      by (cbn; apply lookup_insert_eq).
    exists w1. split; [by apply start_stopped |].
    split; [by rewrite Ho1 |]. split; [done |]. split.
    + intros ok. by eapply start_running.
    + apply trace_of_log. unfold after, bind.
      rewrite (stop_running this true w1 _ Ho1) by done.
      erewrite start_stopped; [| cbn; apply lookup_insert_eq | done].
      cbn. by rewrite <- !app_assoc.
  - intros Hr. eexists. split; [by apply changeTimeout_running |]. cbn.
    rewrite lookup_insert_eq. cbn. by rewrite Hr.
Qed.

Lemma C9_arm_failure_not_rolled_back_witness :
  (∃ w1, start 1 false w_one = Throw (runtime_error "Failed to arm the timer.") w1 ∧
         is_running_ <$> objs w1 !! 1%positive = Some true ∧
         ∀ ok, start 1 ok w1 = Ret tt w1) ∧
  (∃ w2, changeTimeout 1 (-5) false w_running =
           Throw (runtime_error "Failed to arm the timer.") w2 ∧
         timeout_ns_ <$> objs w2 !! 1%positive = Some (-5)).
Proof.
  split.
  - destruct (C9_arm_failure_not_rolled_back 1 0 w_one
                {| timer_id_ := 1; timeout_ns_ := 50000000; callback_ := tick;
                   is_running_ := false; worker_thread_ := Alive;
                   signal_number_ := 34 |} ltac:(vm_compute; reflexivity))
      as (Hstart & _).
    destruct (Hstart ltac:(vm_compute; reflexivity)) as (w1 & H1 & H2 & _ & H3 & _). eauto.
  - destruct (C9_arm_failure_not_rolled_back 1 (-5) w_running
                {| timer_id_ := 1; timeout_ns_ := 50000000; callback_ := tick;
                   is_running_ := true; worker_thread_ := Alive;
                   signal_number_ := 34 |} ltac:(vm_compute; reflexivity))
      as (_ & Hchange).
    destruct (Hchange ltac:(vm_compute; reflexivity)) as (w2 & H1 & H2 & _). eauto.
Defined.

(** ** The signal handler *)

(** C10 does not hold of [signalHandler] for every invocation:
    no entry is registered for signal 35 in [w_one], yet the handler's first
    step is the same blocking [lock_guard] as for any other signal number.
    When the mutex is held the handler parks before it has looked anything
    up, and when the thread it interrupted is inside one of the [lock_guard]
    blocks it waits for a mutex that its own thread holds. *)
Lemma C10_unknown_signal_parks :
  signal_map_ w_one !! 35 = None ∧
  signalHandler 35 (set_signal_mutex true w_one) =
    Block (set_signal_mutex true w_one) ∧
  lock_guard (signalHandler 35) w_one =
    Block (emit EvLock (set_signal_mutex true w_one)).
Proof. conjuncts; vm_compute; reflexivity. Qed.

(** C10 (as amended).  When [signo] has no entry in [signal_map_], or a null
    one, the handler posts to no semaphore and changes nothing, provided it
    can take the mutex: it then locks, looks the entry up, unlocks and
    returns; when the mutex is held it parks.  It never throws and never
    touches an object.  In every case, the only semaphore the handler can
    post to is the one at the address registered under [signo]. *)
Theorem C10_handler_unknown_signal signo w :
  (signal_map_ w !! signo = None ∨ signal_map_ w !! signo = Some nullptr →
   signalHandler signo w =
     if signal_mutex_ w then Block w
     else Ret tt (append_log [EvLock; EvMapFind signo; EvUnlock] w)) ∧
  (∀ e w', signalHandler signo w ≠ Throw e w') ∧
  (∀ a, EvSemPost a ∈ trace (signalHandler signo) w →
        signal_map_ w !! signo = Some (Ptr a)) ∧
  (∀ w' a, signalHandler signo w = Ret tt w' →
           sems w' !! a ≠ sems w !! a →
           signal_map_ w !! signo = Some (Ptr a)).
Proof.
  split; [| split; [| split]].
  - intros Hnone. rewrite signalHandler_effect. by destruct Hnone as [-> | ->].
  - intros e w'. rewrite signalHandler_effect.
    destruct (signal_mutex_ w); [done |].
    destruct (signal_map_ w !! signo) as [[|a]|]; try done.
    by destruct (sems w !! a).
  - intros a. unfold trace, after. rewrite signalHandler_effect.
    destruct (signal_mutex_ w).
    { cbn. rewrite drop_all. by intros ?%elem_of_nil. }
    destruct (signal_map_ w !! signo) as [[|a0]|]; cbn.
    + rewrite drop_app_length. intros H. repeat apply elem_of_cons in H as [?|H]; try done.
      by apply elem_of_nil in H.
    + destruct (sems w !! a0); cbn.
      * rewrite drop_app_length. intros H.
        repeat apply elem_of_cons in H as [?|H]; try done; [congruence |].
        by apply elem_of_nil in H.
      * rewrite drop_all. by intros ?%elem_of_nil.
    + rewrite drop_app_length. intros H. repeat apply elem_of_cons in H as [?|H]; try done.
      by apply elem_of_nil in H.
  - intros w' a. rewrite signalHandler_effect.
    destruct (signal_mutex_ w); [done |].
    destruct (signal_map_ w !! signo) as [[|a0]|].
    + intros [= <-]. done.
    + destruct (sems w !! a0); [| done]. intros [= <-]. cbn.
      destruct (decide (a = a0)) as [-> | Hne]; [done |].
      by rewrite lookup_insert_ne.
    + intros [= <-]. done.
Qed.

Lemma C10_handler_unknown_signal_witness :
  signalHandler 35 w_one = Ret tt (append_log [EvLock; EvMapFind 35; EvUnlock] w_one) ∧
  (∀ a, EvSemPost a ∈ trace (signalHandler 34) w_one → a = 1%positive).
Proof.
  destruct (C10_handler_unknown_signal 35 w_one) as (Hnone & _).
  destruct (C10_handler_unknown_signal 34 w_one) as (_ & _ & Honly & _).
  split.
  - apply Hnone. left. vm_compute. reflexivity.
  - intros a Ha. apply Honly in Ha. vm_compute in Ha. congruence.
Defined.

(** C2 does not hold of [signalHandler]:
    delivered for the one timer of [w_one], the handler's first step is to
    lock [signal_mutex_]; and delivered to a thread that is inside a
    [lock_guard] block, that is, inside the constructor's or the destructor's
    critical section, it parks on the mutex its own thread holds. *)
Lemma C2_handler_takes_mutex :
  trace (signalHandler 34) w_one =
    [EvLock; EvMapFind 34; EvSemPost 1; EvUnlock] ∧
  lock_guard (signalHandler 34) w_one =
    Block (emit EvLock (set_signal_mutex true w_one)).
Proof. split; vm_compute; reflexivity. Qed.

(** C2 (as amended).  The handler takes [signal_mutex_] with a blocking
    [lock_guard] that spans its whole body, and parks when the mutex is held.
    Holding it, it looks [signo] up in [signal_map_], which leaves the map as
    it is, and, when the entry is a non-null pointer, posts once to the
    semaphore of that object; then it releases the mutex.  Nothing else
    happens: no object, timer or callback memory changes, and the callback is
    not run. *)
Theorem C2_handler_steps signo w :
  signalHandler signo (set_signal_mutex true w) = Block (set_signal_mutex true w) ∧
  signalHandler signo (set_signal_mutex false w) =
    match signal_map_ w !! signo with
    | Some (Ptr a) =>
        match sems w !! a with
        | Some n =>
            Ret tt (append_log [EvLock; EvMapFind signo; EvSemPost a; EvUnlock]
                      (set_sems <[a := S n]> (set_signal_mutex false w)))
        | None => Undef
        end
    | _ => Ret tt (append_log [EvLock; EvMapFind signo; EvUnlock]
                     (set_signal_mutex false w))
    end.
Proof.
  split; rewrite signalHandler_effect; [done |]. cbn [signal_mutex_ set_signal_mutex].
  reflexivity.
Qed.

(** ** The worker *)




(** ** Destruction *)

(** C5 does not hold of the destructor as it is stated:
    for the stopped timer of [w_one] the destructor makes no disarming call
    at all, and for both the stopped and the running timer it destroys the
    semaphore between the join and the erase, so that its steps are not the
    five listed ones. *)
Lemma C5_steps_differ :
  destructor_steps (trace (RobustTimer_dtor [false] 1 true) w_one) =
    [EvTimerDelete 1; EvSemPost 1; EvThreadJoin 1; EvSemDestroy 1; EvMapErase 34] ∧
  destructor_steps (trace (RobustTimer_dtor [false] 1 true) w_running) =
    [EvTimerSettime 1 its_zero true; EvTimerDelete 1; EvSemPost 1;
     EvThreadJoin 1; EvSemDestroy 1; EvMapErase 34] ∧
  destructor_steps (trace (RobustTimer_dtor [false] 1 true) w_one)
    ≠ claimed_destruction_steps 1 1 34 ∧
  destructor_steps (trace (RobustTimer_dtor [false] 1 true) w_running)
    ≠ claimed_destruction_steps 1 1 34.
Proof.
  conjuncts; try (vm_compute; reflexivity); vm_compute; discriminate.
Qed.

(** C5 (as amended).  Whatever the state of the object and wherever its
    worker is, a destructor whose disarming call, if it makes one, succeeds
    performs these steps in this order and returns: [stop()], which disarms
    the timer when the object is running and does nothing when it is
    stopped; [timer_delete]; the sentinel [sem_post]; the join of the worker,
    during which the worker goes on to its [break]; [sem_destroy]; and only
    then, under the mutex, the erase of the registry entry.  So the entry is
    erased after the timer has been deleted and after the worker has been
    joined. *)
Theorem C5_destruction_order i eintr this w o n :
  objs w !! this = Some o → sems w !! this = Some n →
  signal_mutex_ w = false →
  ∃ w',
    RobustTimer_dtor (i :: eintr) this true w = Ret tt w' ∧
    objs w' !! this = None ∧
    signal_map_ w' = delete (signal_number_ o) (signal_map_ w) ∧
    timers w' !! timer_id_ o = None ∧
    sems w' !! this = None ∧
    trace (RobustTimer_dtor (i :: eintr) this true) w =
      (if is_running_ o then [EvTimerSettime (timer_id_ o) its_zero true] else []) ++
      [EvTimerDelete (timer_id_ o); EvSemPost this] ++
      match worker_thread_ o with
      | Alive => [if i then EvSemWaitEintr this else EvSemWait this;
                  EvThreadJoin this]
      | Woken => [EvThreadJoin this]
      | Calling =>
          match callback_ o with Some _ => [EvCallback this] | None => [] end ++
          [if i then EvSemWaitEintr this else EvSemWait this; EvThreadJoin this]
      | Finished => [EvThreadJoin this]
      | Joined => []
      end ++ [EvSemDestroy this; EvLock; EvMapErase (signal_number_ o); EvUnlock] ∧
    destructor_steps (trace (RobustTimer_dtor (i :: eintr) this true) w) =
      (if is_running_ o then [EvTimerSettime (timer_id_ o) its_zero true] else []) ++
      [EvTimerDelete (timer_id_ o); EvSemPost this] ++
      (if joinable (worker_thread_ o) then [EvThreadJoin this] else []) ++
      [EvSemDestroy this; EvMapErase (signal_number_ o)].
Proof.
  intros Ho Hs Hmx.
  destruct (dtor_effect i eintr this w o n)
    as (w' & Hw' & H1 & H2 & _ & H4 & H5 & _ & H7); try done.
  exists w'. split; [exact Hw' |].
  rewrite H1, H2, H4, H5, !lookup_delete_eq. conjuncts; try done.
  - apply trace_of_log. unfold after. rewrite Hw'. exact H7.
  - erewrite trace_of_log; [| unfold after; rewrite Hw'; exact H7].
    by destruct (is_running_ o), (worker_thread_ o), (callback_ o), i.
Qed.

Lemma C5_destruction_order_witness :
  ∃ w', RobustTimer_dtor [false] 1 true w_running = Ret tt w' ∧
        trace (RobustTimer_dtor [false] 1 true) w_running =
          [EvTimerSettime 1 its_zero true; EvTimerDelete 1; EvSemPost 1;
           EvSemWait 1; EvThreadJoin 1; EvSemDestroy 1; EvLock; EvMapErase 34;
           EvUnlock].
Proof.
  destruct (C5_destruction_order false [] 1 w_running
              {| timer_id_ := 1; timeout_ns_ := 50000000; callback_ := tick;
                 is_running_ := true; worker_thread_ := Alive;
                 signal_number_ := 34 |} 0
              ltac:(vm_compute; reflexivity) ltac:(vm_compute; reflexivity)
              ltac:(vm_compute; reflexivity))
    as (w' & Hw' & _ & _ & _ & _ & Htr & _).
  exists w'. split; [exact Hw' | exact Htr].
Defined.

(** ** Construction and the registry *)

Lemma reachable_w_one : reachable 34 64 w_one.
Proof.
  apply (reachable_run 34 64 [Create 1 50000000 tick true true true] empty_world);
    [apply reach_init | vm_compute; reflexivity].
Qed.

Lemma reachable_w_full : reachable 34 64 w_full.
Proof.
  apply (reachable_run 34 64 fill empty_world);
    [apply reach_init | vm_compute; reflexivity].
Qed.

Lemma exhausted_w_full : exhausted 34 64 w_full.
Proof.
  intros signo Hin.
  assert (Forall (λ s, is_Some (signal_map_ w_full !! s)) (pool 34 64)) as Hall.
  { vm_compute. repeat (constructor; [eexists; reflexivity |]). constructor. }
  by apply (proj1 (Forall_forall _ _) Hall).
Qed.

(** When an event is not among those of a list that is written out. *)
Ltac absent :=
  let H := fresh in
  intros H;
  repeat (apply elem_of_app in H as [H|H]);
  try (apply list_elem_of_fmap in H as (? & H & _); discriminate H);
  repeat (apply elem_of_cons in H as [H|H]; [discriminate H |]);
  try (by apply elem_of_nil in H).

Section Construction.

Variables SIGRTMIN SIGRTMAX : Z.
Hypothesis SIGRTMIN_pos : 0 < SIGRTMIN.

Local Abbreviation pool := (pool SIGRTMIN SIGRTMAX).
Local Abbreviation ctor := (RobustTimer_ctor SIGRTMIN SIGRTMAX).
Local Abbreviation next := (next SIGRTMIN SIGRTMAX).
Local Abbreviation run := (run SIGRTMIN SIGRTMAX).
Local Abbreviation reachable := (reachable SIGRTMIN SIGRTMAX).
Local Abbreviation exhausted := (exhausted SIGRTMIN SIGRTMAX).

(** What the constructor does when it throws one of the two
    [runtime_error]s that follow [sem_init].  No object is produced and the
    registry is as it was before the call, so a signal number reserved on the
    way is free again.  The semaphore is another matter: once [sem_init] has
    succeeded, every later [throw] leaves the constructor without a
    [sem_destroy], and the semaphore stays initialised. *)
Lemma ctor_throw this timeout_ns cb s t th w e w' :
  signal_mutex_ w = false →
  ctor this timeout_ns cb s t th w = Throw e w' →
  objs w' = objs w ∧
  (e = runtime_error "No available signal numbers for the timer." ∨
   e = runtime_error "Failed to create timer." →
   signal_map_ w' = signal_map_ w ∧
   sems w' !! this = Some 0%nat ∧
   EvSemDestroy this ∉ trace (ctor this timeout_ns cb s t th) w).
Proof.
  intros Hmx Hthrow. destruct cb as [f|]; cycle 1.
  { injection Hthrow as <- <-. split; [done |].
    intros [H|H]; discriminate H. }
  destruct s; cycle 1.
  { injection Hthrow as <- <-. split; [done |].
    intros [H|H]; discriminate H. }
  destruct (scan_cases pool (signal_map_ w))
    as [Hall | (l1 & signo & l2 & Hl & Hl1 & Hfree)].
  - pose proof (ctor_exhausted SIGRTMIN SIGRTMAX this timeout_ns f t th w Hall Hmx) as Hc.
    rewrite Hc in Hthrow. injection Hthrow as <- <-.
    split; [done |]. intros _. split; [done |]. split.
    + cbn. apply lookup_insert_eq.
    + rewrite (trace_of_log _ _ ([EvSemInit this; EvLock] ++
                                   (EvMapFind <$> pool) ++ [EvUnlock]));
        [absent | unfold after; by rewrite Hc].
  - destruct (ctor_reserves SIGRTMIN SIGRTMAX SIGRTMIN_pos this timeout_ns f t th w
                l1 signo l2)
      as (w1 & Hw1 & Hob & Hmp & _ & Hsm & _ & _ & _ & _ & Hlog); try done.
    rewrite Hw1 in Hthrow. destruct t.
    + destruct th; [done |]. injection Hthrow as <- <-.
      split; [done |]. intros [H|H]; discriminate H.
    + injection Hthrow as <- <-.
      split; [by destruct th |]. intros _. split; [done |]. split.
      * rewrite Hsm. apply lookup_insert_eq.
      * erewrite trace_of_log; [| unfold after; rewrite Hw1; exact Hlog].
        absent.
Qed.


(** C8.  In a reachable world where every signal number of the pool is
    taken, constructing one more timer throws the exhaustion error and leaves
    every object, the registry, every timer, the callbacks' memory and every
    other semaphore as they were.  Destroying any live timer then returns,
    and after it a construction in free storage returns too, with the signal
    number the destroyed timer held. *)
Theorem C8_exhaustion w this timeout_ns f t th :
  reachable w → exhausted w → objs w !! this = None →
  ∃ w',
    ctor this timeout_ns (Some f) true t th w =
      Throw (runtime_error "No available signal numbers for the timer.") w' ∧
    objs w' = objs w ∧ signal_map_ w' = signal_map_ w ∧
    timers w' = timers w ∧ user w' = user w ∧
    (∀ a, a ≠ this → sems w' !! a = sems w !! a) ∧
    ∀ victim o i eintr,
      objs w' !! victim = Some o →
      ∃ w1,
        RobustTimer_dtor (i :: eintr) victim true w' = Ret tt w1 ∧
        objs w1 = delete victim (objs w') ∧
        ∀ this2 timeout2 f2,
          objs w1 !! this2 = None →
          ∃ w2,
            ctor this2 timeout2 (Some f2) true true true w1 = Ret tt w2 ∧
            signal_number_ <$> objs w2 !! this2 = Some (signal_number_ o).
Proof.
  intros Hw Hex Hfresh.
  pose proof (reachable_wf SIGRTMIN SIGRTMAX SIGRTMIN_pos w Hw)
    as [Hown Hmx Hsems Hpool].
  pose proof (ctor_exhausted SIGRTMIN SIGRTMAX this timeout_ns f t th w Hex Hmx) as Hc.
  set (w' := append_log _ (set_sems <[this := 0%nat]> w)) in *.
  exists w'. split; [exact Hc |].
  split; [done |]. split; [done |]. split; [done |]. split; [done |].
  split; [intros a Ha; cbn; by rewrite lookup_insert_ne |].
  intros victim o i eintr Ho.
  assert (victim ≠ this) as Hne by (intros ->; cbn in Ho; congruence).
  destruct (Hsems victim) as [n Hn]; [eauto |].
  destruct (dtor_effect i eintr victim w' o n) as (w1 & Hw1 & Hob & Hmp & Hmx1 & _);
    [exact Ho | cbn; rewrite lookup_insert_ne by done; exact Hn | exact Hmx |].
  exists w1. split; [exact Hw1 |]. split; [exact Hob |]. cbn in Hob, Hmp.
  intros this2 timeout2 f2 Hfresh2.
  assert (signal_number_ o ∈ pool) as Hin by eauto.
  apply list_elem_of_split in Hin as (l1 & l2 & Hl).
  assert (NoDup pool) as Hnd by apply NoDup_seqZ.
  rewrite Hl in Hnd. apply NoDup_app in Hnd as (_ & Hdisj & _).
  destruct (ctor_reserves SIGRTMIN SIGRTMAX SIGRTMIN_pos this2 timeout2 f2 true true w1
              l1 (signal_number_ o) l2) as (w2 & Hw2 & Hob2 & _); try done.
  - intros x Hx. rewrite Hmp, lookup_delete_ne.
    + apply Hex. rewrite Hl. apply elem_of_app. by left.
    + intros <-. apply (Hdisj _ Hx). by left.
  - rewrite Hmp. apply lookup_delete_eq.
  - exists w2. split; [exact Hw2 |]. cbn [andb] in Hob2.
    rewrite Hob2, lookup_insert_eq. done.
Qed.

End Construction.

(** ** The claims about construction, at the bounds of Linux *)

(** C3, at the two inputs where it fails.  With every signal number taken,
    and again with a [timer_create] that fails, the constructor throws, no
    object exists at the address and the registry holds no entry for it, but
    the semaphore that [sem_init] initialised is still there: no
    [sem_destroy] was called. *)
Theorem C3_failed_construction_keeps_semaphore :
  let full := RobustTimer_ctor 34 64 32 50000000 tick true true true in
  let nocreate := RobustTimer_ctor 34 64 1 50000000 tick true false true in
  (full w_full =
     Throw (runtime_error "No available signal numbers for the timer.")
       (after full w_full) ∧
   objs (after full w_full) !! 32%positive = None ∧
   signal_map_ (after full w_full) = signal_map_ w_full ∧
   sems (after full w_full) !! 32%positive = Some 0%nat ∧
   trace full w_full =
     [EvSemInit 32; EvLock] ++ (EvMapFind <$> pool 34 64) ++ [EvUnlock]) ∧
  (nocreate empty_world =
     Throw (runtime_error "Failed to create timer.") (after nocreate empty_world) ∧
   objs (after nocreate empty_world) !! 1%positive = None ∧
   signal_map_ (after nocreate empty_world) = signal_map_ empty_world ∧
   sems (after nocreate empty_world) !! 1%positive = Some 0%nat ∧
   trace nocreate empty_world =
     [EvSemInit 1; EvLock; EvMapFind 34; EvSigaction 34; EvMapInsert 34 1;
      EvUnlock; EvTimerCreate 34 false; EvLock; EvMapErase 34; EvUnlock]).
Proof.
  cbv zeta.
  assert (RobustTimer_ctor 34 64 32 50000000 tick true true true w_full =
            Throw (runtime_error "No available signal numbers for the timer.")
              (after (RobustTimer_ctor 34 64 32 50000000 tick true true true) w_full))
    as Hfull by (vm_compute; reflexivity).
  assert (RobustTimer_ctor 34 64 1 50000000 tick true false true empty_world =
            Throw (runtime_error "Failed to create timer.")
              (after (RobustTimer_ctor 34 64 1 50000000 tick true false true) empty_world))
    as Hnocreate by (vm_compute; reflexivity).
  split.
  - destruct (ctor_throw 34 64 ltac:(lia) 32 50000000 tick true true true w_full _ _
                ltac:(vm_compute; reflexivity) Hfull)
      as (Hob & Hsem).
    destruct Hsem as (Hmp & Hsem & _); [by left |].
    split; [exact Hfull |]. split; [| split; [exact Hmp |]].
    + rewrite Hob. vm_compute. reflexivity.
    + split; [exact Hsem |]. vm_compute. reflexivity.
  - destruct (ctor_throw 34 64 ltac:(lia) 1 50000000 tick true false true empty_world _ _
                ltac:(vm_compute; reflexivity) Hnocreate)
      as (Hob & Hsem).
    destruct Hsem as (Hmp & Hsem & _); [by right |].
    split; [exact Hnocreate |]. split; [| split; [exact Hmp |]].
    + rewrite Hob. vm_compute. reflexivity.
    + split; [exact Hsem |]. vm_compute. reflexivity.
Qed.


Lemma not_exhausted_w_one : ¬ exhausted 34 64 w_one.
Proof.
  intros H. destruct (H 35) as [p Hp].
  - unfold pool. apply elem_of_seqZ. lia.
  - vm_compute in Hp. discriminate Hp.
Qed.


Lemma C8_exhaustion_witness :
  ∃ w' w1 w2,
    RobustTimer_ctor 34 64 32 50000000 tick true true true w_full =
      Throw (runtime_error "No available signal numbers for the timer.") w' ∧
    objs w' = objs w_full ∧
    RobustTimer_dtor [false] 7 true w' = Ret tt w1 ∧
    RobustTimer_ctor 34 64 32 50000000 tick true true true w1 = Ret tt w2 ∧
    signal_number_ <$> objs w2 !! 32%positive = Some 40.
Proof.
  destruct (C8_exhaustion 34 64 ltac:(lia) w_full 32 50000000 (λ n, n + 1) true true
              reachable_w_full exhausted_w_full ltac:(vm_compute; reflexivity))
    as (w' & Hthrow & Hob & _ & _ & _ & _ & Hdestroy).
  destruct (Hdestroy 7%positive
              {| timer_id_ := 7; timeout_ns_ := 50000000; callback_ := tick;
                 is_running_ := false; worker_thread_ := Alive;
                 signal_number_ := 40 |} false [])
    as (w1 & Hw1 & Hob1 & Hcreate).
  { rewrite Hob. vm_compute. reflexivity. }
  destruct (Hcreate 32%positive 50000000 (λ n, n + 1)) as (w2 & Hw2 & Hsig).
  { rewrite Hob1, Hob. vm_compute. reflexivity. }
  exists w', w1, w2. repeat split; assumption.
Defined.

(** * Further properties of the member functions *)

(** ** [stop] and [disarmTimer] *)

(** X1. [stop()] on a stopped timer returns at once and leaves the world as
    it was.  On a running timer it clears the flag and makes one
    [timer_settime] call with a zero setting, after which a further [stop()]
    does nothing.  When that call fails, the exception reaches the caller
    with the flag already cleared and the timer's setting untouched, and a
    further [stop()] returns without trying again. *)
Theorem stop_idempotent_and_failure this w o :
  objs w !! this = Some o →
  (is_running_ o = false →
   ∀ ok, stop this ok w = Ret tt w ∧ trace (stop this ok) w = []) ∧
  (is_running_ o = true →
   ∃ w', stop this true w = Ret tt w' ∧
         objs w' = <[this := with_is_running false o]> (objs w) ∧
         timers w' = alter (with_setting its_zero) (timer_id_ o) (timers w) ∧
         trace (stop this true) w = [EvTimerSettime (timer_id_ o) its_zero true] ∧
         ∀ ok, stop this ok w' = Ret tt w') ∧
  (is_running_ o = true →
   ∃ w1, stop this false w =
           Throw (runtime_error "Failed to disarm the timer.") w1 ∧
         is_running_ <$> objs w1 !! this = Some false ∧
         timers w1 = timers w ∧
         ∀ ok, stop this ok w1 = Ret tt w1).
Proof.
  intros Ho. split; [| split].
  - intros Hr ok. split; [by apply (stop_stopped this ok w o) |].
    apply trace_of_log. unfold after.
    rewrite (stop_stopped this ok w o) by done. cbn. by rewrite app_nil_r.
  - intros Hr.
    set (w' := set_timers (alter (with_setting its_zero) (timer_id_ o))
                 (emit (EvTimerSettime (timer_id_ o) its_zero true)
                    (set_objs <[this := with_is_running false o]> w))).
    assert (objs w' !! this = Some (with_is_running false o)) as Ho'
      by (cbn; apply lookup_insert_eq).
    exists w'. split; [by apply stop_running |].
    split; [done |]. split; [done |]. split.
    + apply trace_of_log. unfold after. by rewrite (stop_running this true w o).
    + intros ok. by eapply stop_stopped.
  - intros Hr.
    set (w1 := set_timers (λ m, m)
                 (emit (EvTimerSettime (timer_id_ o) its_zero false)
                    (set_objs <[this := with_is_running false o]> w))).
    assert (objs w1 !! this = Some (with_is_running false o)) as Ho1
      by (cbn; apply lookup_insert_eq).
    exists w1. split; [by apply stop_running |].
    split; [by rewrite Ho1 |]. split; [done |].
    intros ok. by eapply stop_stopped.
Qed.

Lemma stop_idempotent_and_failure_witness :
  (∃ w', stop 1 true w_running = Ret tt w' ∧ ∀ ok, stop 1 ok w' = Ret tt w') ∧
  (∃ w1, stop 1 false w_running =
           Throw (runtime_error "Failed to disarm the timer.") w1 ∧
         is_running_ <$> objs w1 !! 1%positive = Some false ∧
         timers w1 = timers w_running).
Proof.
  destruct (stop_idempotent_and_failure 1 w_running
              {| timer_id_ := 1; timeout_ns_ := 50000000; callback_ := tick;
                 is_running_ := true; worker_thread_ := Alive;
                 signal_number_ := 34 |} ltac:(vm_compute; reflexivity))
    as (_ & Hok & Hfail).
  split.
  - destruct (Hok ltac:(reflexivity)) as (w' & H1 & _ & _ & _ & H2). eauto.
  - destruct (Hfail ltac:(reflexivity)) as (w1 & H1 & H2 & H3 & _). eauto.
Defined.

(** ** [armTimer] *)

(** X2. The setting [armTimer] passes to [timer_settime] splits the timeout
    without loss: seconds times 10^9 plus nanoseconds is the timeout, and the
    interval is zero.  For a timeout that is not negative both parts are not
    negative and the nanoseconds are below 10^9; for a negative timeout
    neither part is positive, so the nanoseconds are out of the range
    [timer_settime] accepts unless they are zero.  The setting is the all-zero
    one, the one [disarmTimer] passes, exactly when the timeout is zero. *)
Theorem one_shot_split (timeout_ns : Z) :
  tv_sec (it_value (one_shot timeout_ns)) * 1000000000
    + tv_nsec (it_value (one_shot timeout_ns)) = timeout_ns ∧
  it_interval (one_shot timeout_ns) = {| tv_sec := 0; tv_nsec := 0 |} ∧
  (0 ≤ timeout_ns →
   0 ≤ tv_sec (it_value (one_shot timeout_ns)) ∧
   0 ≤ tv_nsec (it_value (one_shot timeout_ns)) < 1000000000) ∧
  (timeout_ns < 0 →
   tv_sec (it_value (one_shot timeout_ns)) ≤ 0 ∧
   -1000000000 < tv_nsec (it_value (one_shot timeout_ns)) ≤ 0) ∧
  (one_shot timeout_ns = its_zero ↔ timeout_ns = 0).
Proof.
  assert (timeout_ns = 1000000000 * (timeout_ns `quot` 1000000000)
                       + timeout_ns `rem` 1000000000) as Hqr
    by (apply Z.quot_rem'; lia).
  cbn. split; [lia |]. split; [done |]. split; [| split; [| split]].
  - intros Hpos. pose proof (Z.rem_bound_pos timeout_ns 1000000000 Hpos ltac:(lia)).
    pose proof (Z.quot_pos timeout_ns 1000000000 Hpos ltac:(lia)). lia.
  - intros Hneg.
    pose proof (Z.rem_bound_pos (- timeout_ns) 1000000000 ltac:(lia) ltac:(lia)) as Hr.
    pose proof (Z.quot_pos (- timeout_ns) 1000000000 ltac:(lia) ltac:(lia)) as Hq.
    rewrite Z.rem_opp_l in Hr by lia. rewrite Z.quot_opp_l in Hq by lia. lia.
  - unfold one_shot, its_zero. intros [= Hq Hr]. lia.
  - intros ->. reflexivity.
Qed.

Lemma one_shot_split_witness :
  one_shot 2500000000 =
    {| it_value := {| tv_sec := 2; tv_nsec := 500000000 |};
       it_interval := {| tv_sec := 0; tv_nsec := 0 |} |} ∧
  (0 ≤ tv_nsec (it_value (one_shot 2500000000)) < 1000000000) ∧
  tv_nsec (it_value (one_shot (-1))) ≤ 0.
Proof.
  destruct (one_shot_split 2500000000) as (_ & _ & Hpos & _).
  destruct (one_shot_split (-1)) as (_ & _ & _ & Hneg & _).
  split; [reflexivity |]. split; [apply Hpos; lia | apply Hneg; lia].
Defined.

(** ** [start] followed by [stop] *)

(** X3. On a stopped timer whose operating-system timer is disarmed,
    [start()] followed by [stop()] brings every object and every timer back
    to what it was: the two calls leave nothing behind but the two
    [timer_settime] calls, the arming one and the disarming one. *)
Theorem start_stop_round_trip this w o t :
  objs w !! this = Some o → is_running_ o = false →
  timers w !! timer_id_ o = Some t → setting t = its_zero →
  bind (start this true) (λ _, stop this true) w =
    Ret tt (append_log
              [EvTimerSettime (timer_id_ o) (one_shot (timeout_ns_ o)) true;
               EvTimerSettime (timer_id_ o) its_zero true] w).
Proof.
  intros Ho Hr Ht Hzero. unfold bind.
  rewrite (start_stopped this true w o) by done.
  erewrite stop_running; [| cbn; apply lookup_insert_eq | done].
  f_equal. destruct w as [ob mp mx sm tm nt sa us lg]. cbn in *.
  unfold append_log, set_timers, emit, set_objs. cbn. f_equal.
  - rewrite insert_insert_eq. apply insert_id. rewrite Ho. f_equal.
    destruct o as [ti tn cb ir wt sn]. unfold with_is_running. cbn in *.
    by subst.
  - apply map_eq. intros i. rewrite !lookup_alter.
    case_decide as E; [| done]. subst i. rewrite decide_True by done.
    rewrite Ht. cbn. f_equal.
    destruct t as [sg sv st]. unfold with_setting. cbn in *. by subst.
  - by rewrite <- app_assoc.
Qed.

Lemma start_stop_round_trip_witness :
  bind (start 1 true) (λ _, stop 1 true) w_one =
    Ret tt (append_log [EvTimerSettime 1 (one_shot 50000000) true;
                        EvTimerSettime 1 its_zero true] w_one).
Proof.
  apply (start_stop_round_trip 1 w_one
           {| timer_id_ := 1; timeout_ns_ := 50000000; callback_ := tick;
              is_running_ := false; worker_thread_ := Alive;
              signal_number_ := 34 |}
           {| sigev_signo := 34; sival_ptr := 1; setting := its_zero |});
    vm_compute; reflexivity.
Defined.

(** ** Disarmed timers *)

(** X4. A timer that [stop()] has disarmed does not fire: after a [stop()]
    that returned, the expiry of the object's timer delivers no signal and
    changes nothing.  The same holds after [start()] with a configured
    timeout of zero and after [changeTimeout(0)] on a running timer, because
    the setting [armTimer] passes for a zero timeout is the disarming one. *)
Theorem disarmed_timer_never_fires this w o :
  objs w !! this = Some o →
  (is_running_ o = true →
   ∀ w', stop this true w = Ret tt w' →
         timer_expire (timer_id_ o) w' = Ret tt w') ∧
  (is_running_ o = false → timeout_ns_ o = 0 →
   ∀ w', start this true w = Ret tt w' →
         timer_expire (timer_id_ o) w' = Ret tt w') ∧
  (is_running_ o = true →
   ∀ w', changeTimeout this 0 true w = Ret tt w' →
         timer_expire (timer_id_ o) w' = Ret tt w').
Proof.
  intros Ho. split; [| split].
  - intros Hr w'. rewrite (stop_running this true w o) by done.
    intros [= <-]. unfold timer_expire. cbn. rewrite lookup_alter_eq.
    by destruct (timers w !! timer_id_ o).
  - intros Hr Hz w'. rewrite (start_stopped this true w o) by done.
    intros [= <-]. unfold timer_expire. cbn. rewrite lookup_alter_eq, Hz.
    by destruct (timers w !! timer_id_ o).
  - intros Hr w'. rewrite (changeTimeout_running this 0 true w o) by done.
    intros [= <-]. unfold timer_expire. cbn. rewrite lookup_alter_eq.
    by destruct (timers w !! timer_id_ o).
Qed.

Lemma disarmed_timer_never_fires_witness :
  timer_expire 1 (after (stop 1 true) w_running) =
    Ret tt (after (stop 1 true) w_running).
Proof.
  destruct (disarmed_timer_never_fires 1 w_running
              {| timer_id_ := 1; timeout_ns_ := 50000000; callback_ := tick;
                 is_running_ := true; worker_thread_ := Alive;
                 signal_number_ := 34 |} ltac:(vm_compute; reflexivity))
    as (Hstop & _).
  apply (Hstop ltac:(reflexivity)). vm_compute. reflexivity.
Defined.

(** ** The worker and pending wakes *)

(** X5. The worker runs the callback once for each return of [sem_wait]
    that finds the flag set: once for each unit it takes and once more for
    each [sem_wait] that a signal handler interrupts, which returns without a
    unit.  With the flag set and as many units pending as there are
    uninterrupted passes in [pre], the worker makes one callback per pass of
    [pre], each to its end before the next [sem_wait], and then parks in
    [sem_wait] with the semaphore at zero.  When no [sem_wait] is
    interrupted this is one callback per wake.  The worker changes no
    object, no timer and no registry entry. *)
Theorem worker_drains_pending_wakes pre rest this w o f :
  objs w !! this = Some o → is_running_ o = true →
  callback_ o = Some f → sems w !! this = Some (uninterrupted pre) →
  ∃ w',
    workerThread (pre ++ false :: rest) this w = Block w' ∧
    user w' = Nat.iter (length pre) f (user w) ∧
    sems w' = <[this := 0%nat]> (sems w) ∧
    objs w' = objs w ∧ timers w' = timers w ∧
    signal_map_ w' = signal_map_ w ∧
    log w' = log w ++
      mjoin ((λ i : bool, [if i then EvSemWaitEintr this else EvSemWait this;
                           EvCallback this]) <$> pre) ∧
    (uninterrupted pre = length pre →
     log w' = log w ++ mjoin (replicate (length pre) [EvSemWait this; EvCallback this])).
Proof.
  revert w. induction pre as [|i pre IH]; intros w Ho Hr Hf Hs.
  - exists w. split; [by apply workerThread_parked |].
    split; [done |]. split; [by rewrite insert_id |].
    cbn. rewrite app_nil_r. done.
  - cbn [app].
    assert (∃ n, (i = true ∨ uninterrupted (i :: pre) = S n) ∧
                 sems (waited this i n w) !! this = Some (uninterrupted pre))
      as (n & Hi & Hs').
    { exists (uninterrupted pre). destruct i; unfold uninterrupted in *; cbn in *.
      - auto.
      - split; [auto |]. apply lookup_insert_eq. }
    rewrite (workerThread_pass i (pre ++ false :: rest) this w _ n Hs Hi), Ho, Hr.
    set (w1 := called this o (waited this i n w)).
    destruct (IH w1) as (w' & Hw' & Hu & Hsm & Hob & Htm & Hmp & Hlog & Hquiet);
      [by (subst w1; rewrite objs_called, objs_waited) | done | done
      | by (subst w1; rewrite sems_called) |].
    exists w'. split; [exact Hw' |].
    assert (user w1 = f (user w) ∧ objs w1 = objs w ∧ timers w1 = timers w ∧
            signal_map_ w1 = signal_map_ w ∧
            <[this := 0%nat]> (sems w1) = <[this := 0%nat]> (sems w) ∧
            log w1 = log w ++ [if i then EvSemWaitEintr this else EvSemWait this;
                               EvCallback this])
      as (Hu1 & Hob1 & Htm1 & Hmp1 & Hsm1 & Hlog1).
    { subst w1. unfold called, waited. rewrite Hf.
      destruct i; cbn; rewrite ?insert_insert_eq, <- ?app_assoc; done. }
    rewrite Hu, Hsm, Hob, Htm, Hmp, Hu1, Hob1, Htm1, Hmp1, Hsm1.
    cbn [length]. rewrite Nat.iter_swap.
    conjuncts; try done.
    + rewrite Hlog, Hlog1. cbn. by rewrite <- !app_assoc.
    + intros Hall. destruct i.
      * exfalso. unfold uninterrupted in Hall. cbn in Hall.
        pose proof (List.filter_length_le negb pre). lia.
      * rewrite Hquiet.
        -- rewrite Hlog1. cbn. by rewrite <- !app_assoc.
        -- unfold uninterrupted in *. cbn in Hall. lia.
Qed.

Lemma worker_drains_pending_wakes_witness :
  let w := after (signalHandler 34) (after (signalHandler 34) w_running) in
  (∃ w', workerThread [false; false; false] 1 w = Block w' ∧
         user w' = 2 ∧ sems w' !! 1%positive = Some 0%nat) ∧
  (∃ w', workerThread [false; true; false; false] 1 w = Block w' ∧
         user w' = 3 ∧ sems w' !! 1%positive = Some 0%nat).
Proof.
  cbv zeta. split.
  - destruct (worker_drains_pending_wakes [false; false] [] 1
                (after (signalHandler 34) (after (signalHandler 34) w_running))
                {| timer_id_ := 1; timeout_ns_ := 50000000; callback_ := tick;
                   is_running_ := true; worker_thread_ := Alive;
                   signal_number_ := 34 |} (λ n, n + 1)
                ltac:(vm_compute; reflexivity) ltac:(reflexivity)
                ltac:(reflexivity) ltac:(vm_compute; reflexivity))
      as (w' & Hw' & Hu & Hsm & _).
    exists w'. split; [exact Hw' |]. split.
    + rewrite Hu. vm_compute. reflexivity.
    + rewrite Hsm. apply lookup_insert_eq.
  - destruct (worker_drains_pending_wakes [false; true; false] [] 1
                (after (signalHandler 34) (after (signalHandler 34) w_running))
                {| timer_id_ := 1; timeout_ns_ := 50000000; callback_ := tick;
                   is_running_ := true; worker_thread_ := Alive;
                   signal_number_ := 34 |} (λ n, n + 1)
                ltac:(vm_compute; reflexivity) ltac:(reflexivity)
                ltac:(reflexivity) ltac:(vm_compute; reflexivity))
      as (w' & Hw' & Hu & Hsm & _).
    exists w'. split; [exact Hw' |]. split.
    + rewrite Hu. vm_compute. reflexivity.
    + rewrite Hsm. apply lookup_insert_eq.
Defined.

(** ** The destructor *)

(** X6. Destruction runs the callback at most once, and no pending wake is
    served.  Whatever the state of the object and however many wakes its
    semaphore holds, a destructor whose disarming call succeeds returns, and
    the semaphore goes with whatever it held.  If the worker was past the
    test of the flag and about to call the callback when the destructor
    began, the callback runs once, during the join; wherever else the worker
    was, no callback runs and the callbacks' memory is as it was. *)
Theorem destruction_runs_at_most_one_callback i eintr this w o n :
  objs w !! this = Some o → sems w !! this = Some n →
  signal_mutex_ w = false →
  ∃ w',
    RobustTimer_dtor (i :: eintr) this true w = Ret tt w' ∧
    sems w' !! this = None ∧
    user w' = match worker_thread_ o, callback_ o with
              | Calling, Some f => f (user w)
              | _, _ => user w
              end ∧
    callbacks (trace (RobustTimer_dtor (i :: eintr) this true) w) =
      match worker_thread_ o, callback_ o with
      | Calling, Some _ => [EvCallback this]
      | _, _ => []
      end.
Proof.
  intros Ho Hs Hmx.
  destruct (dtor_effect i eintr this w o n)
    as (w' & Hw' & _ & _ & _ & Hsm & _ & Hu & Hlog); try done.
  exists w'. split; [exact Hw' |].
  split; [rewrite Hsm; apply lookup_delete_eq |]. split; [exact Hu |].
  erewrite trace_of_log; [| unfold after; rewrite Hw'; exact Hlog].
  by destruct (is_running_ o), (worker_thread_ o), (callback_ o), i.
Qed.

Lemma reachable_w_calling : reachable 34 64 w_calling.
Proof.
  apply (reachable_run 34 64
           [Start 1 true; Expire 1; Step 1 false; Step 1 false] w_one);
    [apply reachable_w_one | vm_compute; reflexivity].
Qed.

Lemma destruction_runs_at_most_one_callback_witness :
  (∃ w', RobustTimer_dtor [false] 1 true (after (timer_expire 1) w_running) = Ret tt w' ∧
         user w' = 0) ∧
  (∃ w', RobustTimer_dtor [false] 1 true w_calling = Ret tt w' ∧
         user w' = 1 ∧
         callbacks (trace (RobustTimer_dtor [false] 1 true) w_calling)
           = [EvCallback 1]).
Proof.
  split.
  - destruct (destruction_runs_at_most_one_callback false [] 1
                (after (timer_expire 1) w_running)
                {| timer_id_ := 1; timeout_ns_ := 50000000; callback_ := tick;
                   is_running_ := true; worker_thread_ := Alive;
                   signal_number_ := 34 |} 1
                ltac:(vm_compute; reflexivity) ltac:(vm_compute; reflexivity)
                ltac:(vm_compute; reflexivity))
      as (w' & Hw' & _ & Hu & _).
    exists w'. split; [exact Hw' |]. rewrite Hu. vm_compute. reflexivity.
  - destruct (destruction_runs_at_most_one_callback false [] 1 w_calling
                {| timer_id_ := 1; timeout_ns_ := 50000000; callback_ := tick;
                   is_running_ := true; worker_thread_ := Calling;
                   signal_number_ := 34 |} 0
                ltac:(vm_compute; reflexivity) ltac:(vm_compute; reflexivity)
                ltac:(vm_compute; reflexivity))
      as (w' & Hw' & _ & Hu & Hcb).
    exists w'. split; [exact Hw' |]. split; [| exact Hcb].
    rewrite Hu. vm_compute. reflexivity.
Defined.

(** X7. When the disarming call fails during destruction, the exception
    leaves the destructor after [stop()] has cleared the flag and before any
    other step: the timer is not deleted, the worker is not woken or joined,
    the semaphore is not destroyed and the registry entry stays. *)
Theorem destruction_disarm_failure this eintr w o :
  objs w !! this = Some o → is_running_ o = true →
  ∃ w',
    RobustTimer_dtor eintr this false w =
      Throw (runtime_error "Failed to disarm the timer.") w' ∧
    objs w' = <[this := with_is_running false o]> (objs w) ∧
    signal_map_ w' = signal_map_ w ∧ sems w' = sems w ∧
    timers w' = timers w ∧
    trace (RobustTimer_dtor eintr this false) w =
      [EvTimerSettime (timer_id_ o) its_zero false].
Proof.
  intros Ho Hr. eexists. split; [by apply dtor_disarm_fails |]. cbn.
  repeat (split; [done |]).
  apply trace_of_log. unfold after.
  by rewrite (dtor_disarm_fails eintr this w o).
Qed.

Lemma destruction_disarm_failure_witness :
  ∃ w', RobustTimer_dtor [false] 1 false w_running =
          Throw (runtime_error "Failed to disarm the timer.") w' ∧
        signal_map_ w' = signal_map_ w_running ∧
        timers w' = timers w_running.
Proof.
  destruct (destruction_disarm_failure 1 [false] w_running
              {| timer_id_ := 1; timeout_ns_ := 50000000; callback_ := tick;
                 is_running_ := true; worker_thread_ := Alive;
                 signal_number_ := 34 |}
              ltac:(vm_compute; reflexivity) ltac:(reflexivity))
    as (w' & Hw' & _ & Hmp & _ & Htm & _).
  eauto.
Defined.

(** * Ownership *)

(** ** Operations that keep objects and timers bound as they are *)

Lemma steady_refl w : steady w w.
Proof. by repeat split. Qed.

Lemma steady_trans w1 w2 w3 : steady w1 w2 → steady w2 w3 → steady w1 w3.
Proof.
  intros (Hn1 & Hs1 & Ht1 & Ho1) (Hn2 & Hs2 & Ht2 & Ho2).
  split; [congruence |]. split; [congruence |]. split.
  - intros tid. by rewrite Ht2.
  - intros a. by rewrite Ho2.
Qed.

Lemma steady_set_objs this f w o :
  objs w !! this = Some o → core (f o) = core o →
  steady w (set_objs <[this := f o]> w).
Proof.
  intros Ho Hf. repeat split; try done. intros a. cbn.
  destruct (decide (a = this)) as [->|Hne].
  - rewrite lookup_insert_eq, Ho. cbn. by rewrite Hf.
  - by rewrite lookup_insert_ne.
Qed.

Lemma steady_settime its tid w :
  steady w (set_timers (alter (with_setting its) tid) w).
Proof.
  repeat split; try done. intros i. cbn. rewrite lookup_alter.
  case_decide as E; [| done]. rewrite <- E. by destruct (timers w !! tid).
Qed.

Lemma steady_set_timers_id w : steady w (set_timers (λ m, m) w).
Proof. by repeat split. Qed.

Lemma steady_emit e w : steady w (emit e w).
Proof. by repeat split. Qed.

Lemma steady_set_user f w : steady w (set_user f w).
Proof. by repeat split. Qed.

Lemma steady_append_log es w : steady w (append_log es w).
Proof. by repeat split. Qed.

Lemma steady_set_sems f w : steady w (set_sems f w).
Proof. by repeat split. Qed.

(** A member function that writes one member of [*this] and makes one
    [timer_settime] call. *)
Lemma steady_member_call this o' f e w o :
  objs w !! this = Some o → core o' = core o →
  (f = (λ m, m) ∨ ∃ its tid, f = alter (with_setting its) tid) →
  steady w (set_timers f (emit e (set_objs <[this := o']> w))).
Proof.
  intros Ho Hc Hf. split; [done |]. split; [done |]. split.
  - intros i. cbn. destruct Hf as [-> | (its & tid & ->)]; [done |].
    rewrite lookup_alter. case_decide as E; [| done].
    rewrite <- E. by destruct (timers w !! tid).
  - intros a. cbn. destruct (decide (a = this)) as [->|Hne].
    + rewrite lookup_insert_eq, Ho. cbn. by rewrite Hc.
    + by rewrite lookup_insert_ne.
Qed.

Lemma start_stays this ok w : stays (start this ok w) w.
Proof.
  destruct (objs w !! this) as [o|] eqn:Ho; [| by mrun].
  destruct (is_running_ o) eqn:Hr.
  - rewrite (start_running this ok w o) by done. apply steady_refl.
  - rewrite (start_stopped this ok w o) by done.
    destruct ok; cbn [stays]; apply (steady_member_call this _ _ _ w o); eauto.
Qed.

Lemma stop_stays this ok w : stays (stop this ok w) w.
Proof.
  destruct (objs w !! this) as [o|] eqn:Ho; [| by mrun].
  destruct (is_running_ o) eqn:Hr.
  - rewrite (stop_running this ok w o) by done.
    destruct ok; cbn [stays]; apply (steady_member_call this _ _ _ w o); eauto.
  - rewrite (stop_stopped this ok w o) by done. apply steady_refl.
Qed.

Lemma changeTimeout_stays this d ok w : stays (changeTimeout this d ok w) w.
Proof.
  destruct (objs w !! this) as [o|] eqn:Ho; [| by mrun].
  destruct (is_running_ o) eqn:Hr.
  - rewrite (changeTimeout_running this d ok w o) by done.
    destruct ok; cbn [stays]; apply (steady_member_call this _ _ _ w o); eauto.
  - rewrite (changeTimeout_stopped this d ok w o) by done.
    cbn [stays]. by apply steady_set_objs.
Qed.

Lemma signalHandler_stays signo w : stays (signalHandler signo w) w.
Proof.
  rewrite signalHandler_effect.
  destruct (signal_mutex_ w); [apply steady_refl |].
  destruct (signal_map_ w !! signo) as [[|a]|]; cbn [stays];
    try apply steady_append_log.
  destruct (sems w !! a); cbn [stays]; [| done].
  eapply steady_trans; [apply steady_set_sems | apply steady_append_log].
Qed.

Lemma timer_expire_stays tid w : stays (timer_expire tid w) w.
Proof.
  unfold timer_expire. destruct (timers w !! tid) as [t|]; [| apply steady_refl].
  destruct (_ && _); [apply steady_refl |].
  unfold bind, effect.
  pose proof (signalHandler_stays (sigev_signo t)
                (set_timers (alter (with_setting its_zero) tid) w)) as H.
  destruct (signalHandler _ _); cbn [stays] in *; try done;
    (eapply steady_trans; [apply steady_settime | exact H]).
Qed.

Lemma steady_called this o w : steady w (called this o w).
Proof. unfold called. by destruct (callback_ o). Qed.

Lemma steady_waited this i n w : steady w (waited this i n w).
Proof. by destruct i. Qed.

Lemma workerThread_stays eintr this w : stays (workerThread eintr this w) w.
Proof.
  revert w. induction eintr as [|i eintr IH]; intros w; [apply steady_refl |].
  destruct (sems w !! this) as [k|] eqn:Hs; [| cbn [workerThread]; by mrun].
  assert (∃ n, i = true ∨ k = S n ∨ (i = false ∧ k = 0%nat)) as [n [Hi|[Hi|[-> ->]]]]
    by (exists (pred k); destruct i, k; auto).
  - rewrite (workerThread_pass i eintr this w k n) by auto.
    destruct (objs w !! this) as [o|]; [| done].
    destruct (is_running_ o); [| cbn [stays]; apply steady_waited].
    specialize (IH (called this o (waited this i n w))).
    assert (steady w (called this o (waited this i n w)))
      by (eapply steady_trans; [apply steady_waited | apply steady_called]).
    destruct (workerThread eintr this _); cbn [stays] in *; try done;
      by eapply steady_trans.
  - rewrite (workerThread_pass i eintr this w k n) by auto.
    destruct (objs w !! this) as [o|]; [| done].
    destruct (is_running_ o); [| cbn [stays]; apply steady_waited].
    specialize (IH (called this o (waited this i n w))).
    assert (steady w (called this o (waited this i n w)))
      by (eapply steady_trans; [apply steady_waited | apply steady_called]).
    destruct (workerThread eintr this _); cbn [stays] in *; try done;
      by eapply steady_trans.
  - rewrite workerThread_parked by done. apply steady_refl.
Qed.

Lemma resume_stays eintr this t w : stays (resume eintr this t w) w.
Proof.
  destruct t; try apply steady_refl.
  - apply workerThread_stays.
  - rewrite resume_woken. destruct (objs w !! this) as [o|]; [| done].
    destruct (is_running_ o); [| apply steady_refl].
    pose proof (workerThread_stays eintr this (called this o w)) as H.
    destruct (workerThread eintr this _); cbn [stays] in *; try done;
      (eapply steady_trans; [apply steady_called | done]).
  - rewrite resume_calling. destruct (objs w !! this) as [o|]; [| done].
    pose proof (workerThread_stays eintr this (called this o w)) as H.
    destruct (workerThread eintr this _); cbn [stays] in *; try done;
      (eapply steady_trans; [apply steady_called | done]).
Qed.

(** The scheduler moves a worker that has not been joined to a place where
    it still has not been joined. *)
Lemma steady_thread this t w o :
  objs w !! this = Some o → joinable (worker_thread_ o) = true →
  joinable t = true →
  steady w (set_objs (alter (with_worker_thread t) this) w).
Proof.
  intros Ho Hj Ht. split; [done |]. split; [done |]. split; [done |].
  intros a. cbn. rewrite lookup_alter.
  case_decide as E; [| done]. rewrite <- E, Ho. cbn.
  unfold core. cbn. by rewrite Hj, Ht.
Qed.

Lemma worker_run_steady eintr this w : steady w (worker_run eintr this w).
Proof.
  unfold worker_run. destruct (objs w !! this) as [o|] eqn:Ho; [| apply steady_refl].
  destruct (running (worker_thread_ o)) eqn:Ht; [| apply steady_refl].
  assert (joinable (worker_thread_ o) = true) as Hj
    by (by destruct (worker_thread_ o)).
  pose proof (resume_stays eintr this (worker_thread_ o) w) as H.
  pose proof (resume_objs eintr this (worker_thread_ o) w) as Hobjs.
  destruct (resume eintr this _ w) as [[] w1|e w1|w1|]; cbn [stays] in H;
    [| done | | apply steady_refl];
    (eapply steady_trans; [done |]);
    by apply (steady_thread this _ w1 o); [rewrite Hobjs | |].
Qed.

Lemma worker_step_stays this i w : stays (worker_step this i w) w.
Proof.
  destruct (objs w !! this) as [o|] eqn:Ho;
    [| by unfold worker_step, bind, member; rewrite Ho].
  destruct (worker_thread_ o) eqn:Ht.
  - destruct (sems w !! this) as [k|] eqn:Hs;
      [| by unfold worker_step; mrun].
    assert (∃ n, i = true ∨ k = S n ∨ (i = false ∧ k = 0%nat)) as [n [Hi|[Hi|[-> ->]]]]
      by (exists (pred k); destruct i, k; auto).
    + rewrite (worker_step_alive this i w o k n) by auto. cbn [stays].
      eapply steady_trans; [apply (steady_waited this i n) |].
      apply steady_set_objs; [by rewrite objs_waited |].
      unfold core. cbn. by rewrite Ht.
    + rewrite (worker_step_alive this i w o k n) by auto. cbn [stays].
      eapply steady_trans; [apply (steady_waited this i n) |].
      apply steady_set_objs; [by rewrite objs_waited |].
      unfold core. cbn. by rewrite Ht.
    + rewrite (worker_step_parked this w o) by done. apply steady_refl.
  - rewrite (worker_step_woken this i w o) by done. cbn [stays].
    apply steady_set_objs; [done |].
    unfold core. cbn. rewrite Ht. by destruct (is_running_ o).
  - rewrite (worker_step_calling this i w o) by done. cbn [stays].
    eapply steady_trans; [apply (steady_called this o) |].
    apply steady_set_objs; [by rewrite objs_called |].
    unfold core. cbn. by rewrite Ht.
  - rewrite (worker_step_returned this i w o); [apply steady_refl | done |].
    by rewrite Ht.
  - rewrite (worker_step_returned this i w o); [apply steady_refl | done |].
    by rewrite Ht.
Qed.

(** ** What every reachable world has *)

Lemma core_lookup w w' a o' :
  core <$> objs w' !! a = core <$> objs w !! a →
  objs w' !! a = Some o' →
  ∃ o, objs w !! a = Some o ∧ core o = core o'.
Proof.
  intros H Ho'. rewrite Ho' in H.
  destruct (objs w !! a) as [o|]; [| done].
  exists o. split; [done |]. cbn in H. congruence.
Qed.

Lemma binding_lookup w w' tid t :
  binding <$> timers w' !! tid = binding <$> timers w !! tid →
  timers w !! tid = Some t →
  ∃ t', timers w' !! tid = Some t' ∧ binding t' = binding t.
Proof.
  intros H Ht. rewrite Ht in H.
  destruct (timers w' !! tid) as [t'|]; [| done].
  exists t'. split; [done |]. cbn in H. congruence.
Qed.

Lemma bound_empty : bound empty_world.
Proof.
  split; cbn.
  - intros tid [t H]. by rewrite lookup_empty in H.
  - intros a o H. by rewrite lookup_empty in H.
  - intros a o H. by rewrite lookup_empty in H.
  - intros a o H. by rewrite lookup_empty in H.
  - intros a o H. by rewrite lookup_empty in H.
Qed.

Lemma bound_steady w w' : bound w → steady w w' → bound w'.
Proof.
  intros [Hfresh Htimer Hcb Hthread Hhandler] (Hn & Hsa & Ht & Ho). split.
  - intros tid [t' Ht']. rewrite Hn. apply Hfresh.
    specialize (Ht tid). rewrite Ht' in Ht. cbn in Ht.
    destruct (timers w !! tid); [eauto | done].
  - intros a o' Ho'.
    destruct (core_lookup w w' a o' (Ho a) Ho') as (o & Hoa & Hcore).
    injection Hcore as Htid Hsn _ _.
    destruct (Htimer a o Hoa) as (t & Hta & Hsig & Hptr).
    destruct (binding_lookup w w' (timer_id_ o) t (Ht _) Hta) as (t' & Ht' & Hb).
    injection Hb as Hb1 Hb2.
    exists t'. rewrite <- Htid. split; [done |]. split; congruence.
  - intros a o' Ho'.
    destruct (core_lookup w w' a o' (Ho a) Ho') as (o & Hoa & Hcore).
    injection Hcore as _ _ Hc _. rewrite <- Hc. eauto.
  - intros a o' Ho'.
    destruct (core_lookup w w' a o' (Ho a) Ho') as (o & Hoa & Hcore).
    injection Hcore as _ _ _ Hj. rewrite <- Hj. eauto.
  - intros a o' Ho'.
    destruct (core_lookup w w' a o' (Ho a) Ho') as (o & Hoa & Hcore).
    injection Hcore as _ Hsn _ _. rewrite Hsa, <- Hsn. eauto.
Qed.

Section Ownership.

Variables SIGRTMIN SIGRTMAX : Z.
Hypothesis SIGRTMIN_pos : 0 < SIGRTMIN.

Local Abbreviation pool := (pool SIGRTMIN SIGRTMAX).
Local Abbreviation ctor := (RobustTimer_ctor SIGRTMIN SIGRTMAX).
Local Abbreviation next := (next SIGRTMIN SIGRTMAX).
Local Abbreviation reachable := (reachable SIGRTMIN SIGRTMAX).
Local Abbreviation exhausted := (exhausted SIGRTMIN SIGRTMAX).

Lemma bound_ctor this timeout_ns cb s t th w w' :
  bound w → signal_mutex_ w = false → objs w !! this = None →
  (ctor this timeout_ns cb s t th w = Ret tt w' ∨
   ∃ e, ctor this timeout_ns cb s t th w = Throw e w') →
  bound w'.
Proof.
  intros Hb Hmx Hfresh Hrun.
  pose proof Hb as [Hfr Htimer Hcb Hthread Hhandler].
  destruct (ctor_world SIGRTMIN SIGRTMAX SIGRTMIN_pos this timeout_ns cb s t th
              w w' Hmx Hrun)
    as [-> | [-> | (f & signo & _ & _ & _ & _ & Hob & _ & _ & _ & Htm & Hnt & Hsa & _)]].
  - done.
  - eapply bound_steady; [done |].
    eapply steady_trans; [apply steady_set_sems | apply steady_append_log].
  - assert (∀ tid, is_Some (timers w' !! tid) → (tid < next_timer w')%positive)
      as Hfr'.
    { intros tid. rewrite Htm, Hnt. destruct t; [| apply Hfr]. intros [x Hx].
      destruct (decide (tid = next_timer w)) as [->|Hne]; [lia |].
      rewrite lookup_insert_ne in Hx by done.
      assert (tid < next_timer w)%positive by eauto. lia. }
    assert (∀ a o, objs w !! a = Some o →
                   ∃ x, timers w' !! timer_id_ o = Some x ∧
                        sigev_signo x = signal_number_ o ∧ sival_ptr x = a)
      as Htimer'.
    { intros a o Ha. destruct (Htimer a o Ha) as (x & Hx & ? & ?).
      exists x. rewrite Htm. destruct t; [| done].
      rewrite lookup_insert_ne; [done |].
      intros E. assert (timer_id_ o < next_timer w)%positive by eauto. lia. }
    assert (∀ a o, objs w !! a = Some o → signal_number_ o ∈ sigactions w')
      as Hhandler'.
    { intros a o Ha. rewrite Hsa. apply elem_of_union. right. eauto. }
    destruct t, th; cbn [andb] in Hob; split; try done;
      try (intros a o; rewrite Hob; eauto; fail).
    + intros a o. rewrite Hob. intros Ha.
      destruct (decide (a = this)) as [->|Hne]; [| rewrite lookup_insert_ne in Ha; eauto].
      rewrite lookup_insert_eq in Ha. injection Ha as <-. cbn.
      rewrite Htm, lookup_insert_eq. eauto.
    + intros a o. rewrite Hob. intros Ha.
      destruct (decide (a = this)) as [->|Hne]; [| rewrite lookup_insert_ne in Ha; eauto].
      rewrite lookup_insert_eq in Ha. injection Ha as <-. cbn. eauto.
    + intros a o. rewrite Hob. intros Ha.
      destruct (decide (a = this)) as [->|Hne]; [| rewrite lookup_insert_ne in Ha; eauto].
      rewrite lookup_insert_eq in Ha. by injection Ha as <-.
    + intros a o. rewrite Hob. intros Ha.
      destruct (decide (a = this)) as [->|Hne]; [| rewrite lookup_insert_ne in Ha; eauto].
      rewrite lookup_insert_eq in Ha. injection Ha as <-. cbn.
      rewrite Hsa. apply elem_of_union. left. by apply elem_of_singleton.
Qed.

Lemma bound_dtor eintr this ok w w' :
  bound w → signal_mutex_ w = false →
  RobustTimer_dtor eintr this ok w = Ret tt w' → bound w'.
Proof.
  intros [Hfr Htimer Hcb Hthread Hhandler] Hmx Hret.
  destruct (objs w !! this) as [o|] eqn:Ho;
    [| by revert Hret; unfold RobustTimer_dtor; mrun].
  destruct (dtor_returns eintr this ok w w' o)
    as (Hob & _ & _ & _ & Htm & Hnt & Hsa); try done.
  split.
  - intros tid. rewrite Htm, Hnt. intros [x Hx].
    apply lookup_delete_Some in Hx as [_ Hx]. eauto.
  - intros a o'. rewrite Hob, Htm. intros Ha.
    apply lookup_delete_Some in Ha as [Hne Ha].
    destruct (Htimer a o' Ha) as (x & Hx & Hsig & Hptr).
    exists x. rewrite lookup_delete_ne; [done |].
    intros E. destruct (Htimer this o Ho) as (y & Hy & _ & Hptr').
    rewrite E, Hx in Hy. injection Hy as <-. congruence.
  - intros a o'. rewrite Hob. intros Ha.
    apply lookup_delete_Some in Ha as [_ Ha]. eauto.
  - intros a o'. rewrite Hob. intros Ha.
    apply lookup_delete_Some in Ha as [_ Ha]. eauto.
  - intros a o'. rewrite Hob, Hsa. intros Ha.
    apply lookup_delete_Some in Ha as [_ Ha]. eauto.
Qed.

Lemma bound_next o w w' :
  bound w → signal_mutex_ w = false → next o w = Some w' → bound w'.
Proof.
  intros Hb Hmx. unfold next. destruct o; cbn [exec].
  - destruct (ctor _ _ _ _ _ _ w) as [[] w1|e w1|w1|] eqn:Hc; try done;
      (destruct (objs w !! this) eqn:Hfresh; [done |]);
      intros [= <-];
      (apply (bound_ctor this timeout_ns cb sem_init_ok timer_create_ok thread_ok w);
       [done | done | done | rewrite Hc; eauto]).
  - destruct (RobustTimer_dtor _ _ _ w) eqn:Hd; try done.
    destruct a. intros [= <-]. eauto using bound_dtor.
  - pose proof (start_stays this settime_ok w) as Hk.
    destruct (start _ _ w); try done; intros [= <-]; eauto using bound_steady.
  - pose proof (stop_stays this settime_ok w) as Hk.
    destruct (stop _ _ w); try done; intros [= <-]; eauto using bound_steady.
  - pose proof (changeTimeout_stays this new_timeout_ns settime_ok w) as Hk.
    destruct (changeTimeout _ _ _ w); try done; intros [= <-];
      eauto using bound_steady.
  - pose proof (signalHandler_stays signo w) as Hk.
    destruct (signalHandler _ w); try done; intros [= <-]; eauto using bound_steady.
  - pose proof (timer_expire_stays tid w) as Hk.
    destruct (timer_expire _ w); try done; intros [= <-]; eauto using bound_steady.
  - intros [= <-]. eauto using bound_steady, worker_run_steady.
  - pose proof (worker_step_stays this eintr w) as Hk.
    destruct (worker_step _ _ w); try done; intros [= <-]; eauto using bound_steady.
Qed.

Lemma reachable_bound w : reachable w → bound w.
Proof.
  induction 1 as [|o w w' Hw IH Hn]; [apply bound_empty |].
  eapply bound_next; [done | | done].
  by apply (reachable_wf SIGRTMIN SIGRTMAX SIGRTMIN_pos) in Hw as [_ ? _ _].
Qed.

End Ownership.

(** * Properties of the reachable worlds *)

Lemma pool_range SIGRTMIN SIGRTMAX signo :
  signo ∈ pool SIGRTMIN SIGRTMAX → SIGRTMIN ≤ signo ≤ SIGRTMAX.
Proof. unfold pool. rewrite elem_of_seqZ. lia. Qed.

Section Reachable.

Variables SIGRTMIN SIGRTMAX : Z.
Hypothesis SIGRTMIN_pos : 0 < SIGRTMIN.

Local Abbreviation pool := (pool SIGRTMIN SIGRTMAX).
Local Abbreviation ctor := (RobustTimer_ctor SIGRTMIN SIGRTMAX).
Local Abbreviation run := (run SIGRTMIN SIGRTMAX).
Local Abbreviation reachable := (reachable SIGRTMIN SIGRTMAX).
Local Abbreviation exhausted := (exhausted SIGRTMIN SIGRTMAX).

(** Two live objects never share a signal number or a timer. *)
Lemma live_distinct w a b o o' :
  reachable w → objs w !! a = Some o → objs w !! b = Some o' → a ≠ b →
  signal_number_ o ≠ signal_number_ o' ∧ timer_id_ o ≠ timer_id_ o'.
Proof.
  intros Hw Ha Hb Hne.
  pose proof (reachable_wf SIGRTMIN SIGRTMAX SIGRTMIN_pos w Hw) as [Hown _ _ _].
  pose proof (reachable_bound SIGRTMIN SIGRTMAX SIGRTMIN_pos w Hw) as [_ Htimer _ _ _].
  split.
  - intros E. apply Hown in Ha, Hb. congruence.
  - intros E.
    destruct (Htimer a o Ha) as (t & Ht & _ & Hp).
    destruct (Htimer b o' Hb) as (t' & Ht' & _ & Hp').
    congruence.
Qed.

(** X8. Between any two operations every live timer object exclusively owns
    what the constructor gave it: a signal number within
    [SIGRTMIN, SIGRTMAX] for which the handler is installed and which the
    registry maps to this object, an initialised semaphore, a callback that
    is not empty, a worker that has not been joined, and an existing
    operating-system timer created for that signal number; no other live
    object has the same signal number or the same timer. *)
Theorem live_timer_owns_its_resources w a o :
  reachable w → objs w !! a = Some o →
  SIGRTMIN ≤ signal_number_ o ≤ SIGRTMAX ∧
  signal_number_ o ∈ sigactions w ∧
  signal_map_ w !! signal_number_ o = Some (Ptr a) ∧
  is_Some (sems w !! a) ∧
  is_Some (callback_ o) ∧
  joinable (worker_thread_ o) = true ∧
  (∃ t, timers w !! timer_id_ o = Some t ∧
        sigev_signo t = signal_number_ o ∧ sival_ptr t = a) ∧
  (∀ b o', objs w !! b = Some o' → a ≠ b →
           signal_number_ o ≠ signal_number_ o' ∧ timer_id_ o ≠ timer_id_ o').
Proof.
  intros Hw Ha.
  pose proof (reachable_wf SIGRTMIN SIGRTMAX SIGRTMIN_pos w Hw)
    as [Hown _ Hsems Hpool].
  pose proof (reachable_bound SIGRTMIN SIGRTMAX SIGRTMIN_pos w Hw)
    as [_ Htimer Hcb Hthread Hhandler].
  split.
  { by apply pool_range, (Hpool a o). }
  split; [eauto |]. split; [eauto |]. split; [eauto |].
  split; [eauto |]. split; [eauto |]. split; [eauto |].
  intros b o' Hb Hne. by apply (live_distinct w a b).
Qed.

(** X9. No more timers are alive at once than there are real-time signal
    numbers. *)
Theorem live_timers_bounded_by_pool w :
  reachable w →
  (size (objs w) ≤ Z.to_nat (SIGRTMAX - SIGRTMIN + 1))%nat.
Proof.
  intros Hw.
  pose proof (reachable_wf SIGRTMIN SIGRTMAX SIGRTMIN_pos w Hw) as [_ _ _ Hpool].
  rewrite <- (length_seqZ SIGRTMIN), <- length_map_to_list.
  rewrite <- (length_fmap (λ ao, signal_number_ ao.2)).
  apply submseteq_length, NoDup_submseteq.
  - apply NoDup_fmap_2_strong; [| apply NoDup_map_to_list].
    intros [a o] [b o'] Ha Hb E. cbn in E.
    apply elem_of_map_to_list in Ha, Hb.
    destruct (decide (a = b)) as [->|Hne]; [congruence |].
    by destruct (live_distinct w a b o o' Hw Ha Hb Hne).
  - intros s Hs. apply list_elem_of_fmap in Hs as ([a o] & -> & Ha).
    apply elem_of_map_to_list in Ha. cbn. by apply (Hpool a o).
Qed.

(** X10. A signal delivered between two operations, that is, while no
    thread is inside one of the [lock_guard] blocks, is handled safely as
    long as no construction has failed at the start of its worker thread:
    the handler returns, whatever the signal number.  If the number is
    registered, a live object owns it and that object's semaphore goes up by
    one; otherwise no semaphore changes.  No object, registry entry, timer or
    callback memory changes, and no destroyed or uninitialised semaphore is
    posted to.  Delivered while the mutex is held, the handler parks
    instead. *)
Theorem handler_returns_between_operations ops w signo :
  threads_start ops → run ops empty_world = Some w →
  signalHandler signo (set_signal_mutex true w) = Block (set_signal_mutex true w) ∧
  ∃ w',
    signalHandler signo w = Ret tt w' ∧
    objs w' = objs w ∧ signal_map_ w' = signal_map_ w ∧
    timers w' = timers w ∧ user w' = user w ∧
    signal_mutex_ w' = false ∧
    match signal_map_ w !! signo with
    | Some (Ptr a) =>
        ∃ o n, objs w !! a = Some o ∧ signal_number_ o = signo ∧
               sems w !! a = Some n ∧ sems w' = <[a := S n]> (sems w)
    | _ => sems w' = sems w
    end.
Proof.
  intros Hth Hrun. split; [by rewrite signalHandler_effect |].
  pose proof (wf_run SIGRTMIN SIGRTMAX SIGRTMIN_pos ops empty_world w
                (wf_empty SIGRTMIN SIGRTMAX) Hrun) as [_ Hmx Hsems _].
  pose proof (registry_run SIGRTMIN SIGRTMAX SIGRTMIN_pos ops empty_world w
                (wf_empty SIGRTMIN SIGRTMAX) registry_empty Hth Hrun) as Hreg.
  rewrite signalHandler_effect, Hmx.
  destruct (signal_map_ w !! signo) as [[|a]|] eqn:Hs.
  - eexists. split; [reflexivity |]. by cbn.
  - apply Hreg in Hs as (a' & o & [= <-] & Ha & Hsn).
    destruct (Hsems a) as [n Hn]; [eauto |]. rewrite Hn.
    eexists. split; [reflexivity |]. cbn. repeat (split; [done |]).
    by exists o, n.
  - eexists. split; [reflexivity |]. by cbn.
Qed.

End Reachable.

Lemma live_timer_owns_its_resources_witness :
  34 ≤ 40 ≤ 64 ∧
  signal_map_ w_full !! 40 = Some (Ptr 7) ∧
  is_Some (sems w_full !! 7%positive).
Proof.
  destruct (live_timer_owns_its_resources 34 64 ltac:(lia) w_full 7
              {| timer_id_ := 7; timeout_ns_ := 50000000; callback_ := tick;
                 is_running_ := false; worker_thread_ := Alive;
                 signal_number_ := 40 |}
              reachable_w_full ltac:(vm_compute; reflexivity))
    as (Hrange & _ & Hmap & Hsem & _).
  split; [exact Hrange |]. split; [exact Hmap | exact Hsem].
Defined.

Lemma live_timers_bounded_by_pool_witness : (size (objs w_full) ≤ 31)%nat.
Proof.
  apply (live_timers_bounded_by_pool 34 64 ltac:(lia) w_full reachable_w_full).
Defined.

Lemma threads_start_fill : threads_start fill.
Proof.
  intros this timeout_ns cb s t Hin. unfold fill in Hin.
  apply list_elem_of_fmap in Hin as (a & Ha & _). discriminate Ha.
Qed.

Lemma handler_returns_between_operations_witness :
  ∃ w', signalHandler 40 w_full = Ret tt w' ∧ objs w' = objs w_full.
Proof.
  destruct (handler_returns_between_operations 34 64 ltac:(lia) fill w_full 40
              threads_start_fill ltac:(vm_compute; reflexivity))
    as (_ & w' & Hw' & Hob & _).
  exists w'. split; [exact Hw' | exact Hob].
Defined.

(** * From arming to the callback *)

Section Firing.

Variables SIGRTMIN SIGRTMAX : Z.
Hypothesis SIGRTMIN_pos : 0 < SIGRTMIN.

Local Abbreviation reachable := (reachable SIGRTMIN SIGRTMAX).

(** X11. From arming to the callback.  Take a live, stopped timer with a
    positive timeout, no wake pending and its worker at the top of its loop.
    After [start()] (the arming call succeeding) and the expiry of its
    operating-system timer, the handler has posted one wake.  If the
    worker's [sem_wait] is not interrupted, the worker then runs the
    callback exactly once and parks again with the semaphore at zero.  If
    the handler ran on the worker's own thread and interrupted its
    [sem_wait], that call returns without a unit and the callback runs, and
    the posted unit then makes it run a second time: two callbacks for one
    expiry.  In both cases a second expiry delivers nothing and the running
    flag is still set, so that a further [start()] returns without arming
    the timer again. *)
Theorem expiry_runs_the_callback w a o f eintr :
  reachable w → objs w !! a = Some o →
  is_running_ o = false → worker_thread_ o = Alive → callback_ o = Some f →
  sems w !! a = Some 0%nat → 0 < timeout_ns_ o →
  let w1 := after (start a true) w in
  let w2 := after (timer_expire (timer_id_ o)) w1 in
  let fired := [EvTimerSettime (timer_id_ o) (one_shot (timeout_ns_ o)) true;
                EvLock; EvMapFind (signal_number_ o); EvSemPost a; EvUnlock] in
  sems w2 !! a = Some 1%nat ∧ log w2 = log w ++ fired ∧
  (let w3 := worker_run (false :: false :: eintr) a w2 in
   user w3 = f (user w) ∧
   log w3 = log w ++ fired ++ [EvSemWait a; EvCallback a] ∧
   objs w3 !! a = Some (with_is_running true o) ∧
   sems w3 !! a = Some 0%nat ∧
   timer_expire (timer_id_ o) w3 = Ret tt w3 ∧
   (∀ ok, start a ok w3 = Ret tt w3)) ∧
  (let w3 := worker_run (true :: false :: false :: eintr) a w2 in
   user w3 = f (f (user w)) ∧
   log w3 = log w ++ fired ++
     [EvSemWaitEintr a; EvCallback a; EvSemWait a; EvCallback a] ∧
   objs w3 !! a = Some (with_is_running true o) ∧
   sems w3 !! a = Some 0%nat ∧
   timer_expire (timer_id_ o) w3 = Ret tt w3 ∧
   (∀ ok, start a ok w3 = Ret tt w3)).
Proof.
  intros Hw Ho Hr Hth Hf Hs Hpos.
  pose proof (reachable_wf SIGRTMIN SIGRTMAX SIGRTMIN_pos w Hw) as [Hown Hmx _ _].
  pose proof (reachable_bound SIGRTMIN SIGRTMAX SIGRTMIN_pos w Hw) as [_ Htimer _ _ _].
  destruct (Htimer a o Ho) as (t & Ht & Hsig & _).
  pose proof (Hown a o Ho) as Hmap.
  destruct (one_shot_positive (timeout_ns_ o) Hpos)
    as (sec & nsec & Hits & _ & _ & _ & Harmed).
  intros w1 w2 fired.
  (* start *)
  assert (w1 = set_timers (alter (with_setting (one_shot (timeout_ns_ o))) (timer_id_ o))
                 (emit (EvTimerSettime (timer_id_ o) (one_shot (timeout_ns_ o)) true)
                    (set_objs <[a := with_is_running true o]> w))) as Hw1.
  { subst w1. unfold after. by rewrite (start_stopped a true w o). }
  (* the expiry and the handler *)
  set (w1' := set_timers (alter (with_setting its_zero) (timer_id_ o)) w1).
  assert (w2 = append_log [EvLock; EvMapFind (signal_number_ o); EvSemPost a; EvUnlock]
                 (set_sems <[a := 1%nat]> w1')) as Hw2.
  { subst w2. unfold after, timer_expire.
    assert (timers w1 !! timer_id_ o = Some (with_setting (one_shot (timeout_ns_ o)) t)) as Ht1
      by (rewrite Hw1; cbn; by rewrite lookup_alter_eq, Ht).
    rewrite Ht1. cbn [setting with_setting sigev_signo].
    rewrite Hits. cbn [it_value tv_sec tv_nsec]. rewrite Harmed.
    unfold bind, effect. fold w1'.
    rewrite signalHandler_effect, Hsig.
    assert (signal_mutex_ w1' = false) as -> by (subst w1'; rewrite Hw1; done).
    assert (signal_map_ w1' !! signal_number_ o = Some (Ptr a)) as ->
      by (subst w1'; rewrite Hw1; done).
    assert (sems w1' !! a = Some 0%nat) as -> by (subst w1'; rewrite Hw1; done).
    done. }
  assert (objs w2 !! a = Some (with_is_running true o)) as Ho2
    by (rewrite Hw2; subst w1'; rewrite Hw1; cbn; apply lookup_insert_eq).
  assert (sems w2 !! a = Some 1%nat) as Hs2
    by (rewrite Hw2; cbn; apply lookup_insert_eq).
  assert (log w2 = log w ++ fired) as Hlog2.
  { rewrite Hw2. cbn. subst w1'. rewrite Hw1. cbn. by rewrite <- !app_assoc. }
  assert (timers w2 !! timer_id_ o
          = Some (with_setting its_zero (with_setting (one_shot (timeout_ns_ o)) t)))
    as Ht2.
  { rewrite Hw2. cbn. subst w1'. cbn.
    rewrite lookup_alter_eq, Hw1. cbn. by rewrite lookup_alter_eq, Ht. }
  assert (user w2 = user w) as Hu2
    by (rewrite Hw2; cbn; subst w1'; rewrite Hw1; done).
  split; [exact Hs2 |]. split; [exact Hlog2 |].
  (* what holds of a world the worker leaves parked *)
  assert (∀ w3 : World,
            objs w3 = objs w2 → timers w3 = timers w2 →
            timer_expire (timer_id_ o) w3 = Ret tt w3 ∧
            (∀ ok, start a ok w3 = Ret tt w3)) as Hafter.
  { intros w3 Hob3 Htm3. split.
    - unfold timer_expire. by rewrite Htm3, Ht2.
    - intros ok. apply (start_running a ok w3 (with_is_running true o)); [| done].
      by rewrite Hob3. }
  assert (park_id : ∀ w3 : World,
            objs w3 !! a = Some (with_is_running true o) →
            set_objs (alter (with_worker_thread Alive) a) w3 = w3).
  { intros w3 Ho3. destruct w3 as [ob ? ? ? ? ? ? ? ?]. unfold set_objs. cbn in *.
    f_equal. apply map_eq. intros i. rewrite lookup_alter.
    case_decide as E; [| done]. subst i. rewrite Ho3. cbn. f_equal.
    destruct o. cbn in *. by subst. }
  split.
  - set (w3 := set_user f (emit (EvCallback a)
                  (set_sems <[a := 0%nat]> (emit (EvSemWait a) w2)))).
    assert (worker_run (false :: false :: eintr) a w2 = w3) as ->.
    { unfold worker_run. rewrite Ho2. cbn [worker_thread_ with_is_running].
      rewrite Hth. cbn [running resume].
      rewrite (workerThread_running (false :: eintr) a w2 (with_is_running true o) 0)
        by done.
      cbn [callback_ with_is_running]. rewrite Hf. fold w3.
      rewrite workerThread_parked by (cbn; apply lookup_insert_eq).
      by apply park_id. }
    cbv zeta. split; [by cbn; rewrite Hu2 |].
    split; [cbn; rewrite Hlog2; by rewrite <- !app_assoc |].
    split; [exact Ho2 |]. split; [cbn; apply lookup_insert_eq |].
    by apply Hafter.
  - set (wi := set_user f (emit (EvCallback a) (emit (EvSemWaitEintr a) w2))).
    set (w3 := set_user f (emit (EvCallback a)
                  (set_sems <[a := 0%nat]> (emit (EvSemWait a) wi)))).
    assert (worker_run (true :: false :: false :: eintr) a w2 = w3) as ->.
    { unfold worker_run. rewrite Ho2. cbn [worker_thread_ with_is_running].
      rewrite Hth. cbn [running resume].
      rewrite (workerThread_pass true (false :: false :: eintr) a w2 1 0) by auto.
      rewrite Ho2. cbn [is_running_ with_is_running].
      unfold called, waited. cbn [callback_ with_is_running]. rewrite Hf. fold wi.
      rewrite (workerThread_running (false :: eintr) a wi (with_is_running true o) 0)
        by done.
      cbn [callback_ with_is_running]. rewrite Hf. fold w3.
      rewrite workerThread_parked by (cbn; apply lookup_insert_eq).
      by apply park_id. }
    cbv zeta. split; [by cbn; rewrite Hu2 |].
    split; [cbn; rewrite Hlog2; by rewrite <- !app_assoc |].
    split; [exact Ho2 |]. split; [cbn; apply lookup_insert_eq |].
    by apply Hafter.
Qed.

End Firing.

Lemma expiry_runs_the_callback_witness :
  let w2 := after (timer_expire 1) (after (start 1 true) w_one) in
  user (worker_run [false; false] 1 w2) = 1 ∧
  user (worker_run [true; false; false] 1 w2) = 2.
Proof.
  destruct (expiry_runs_the_callback 34 64 ltac:(lia) w_one 1
              {| timer_id_ := 1; timeout_ns_ := 50000000; callback_ := tick;
                 is_running_ := false; worker_thread_ := Alive;
                 signal_number_ := 34 |} (λ n, n + 1) []
              reachable_w_one ltac:(vm_compute; reflexivity)
              ltac:(reflexivity) ltac:(reflexivity) ltac:(reflexivity)
              ltac:(vm_compute; reflexivity) ltac:(cbn; lia))
    as (_ & _ & (Hu1 & _) & (Hu2 & _)).
  split; [exact Hu1 | exact Hu2].
Defined.

(** * One timer among others *)

Section Among.

Variables SIGRTMIN SIGRTMAX : Z.
Hypothesis SIGRTMIN_pos : 0 < SIGRTMIN.

Local Abbreviation pool := (pool SIGRTMIN SIGRTMAX).
Local Abbreviation ctor := (RobustTimer_ctor SIGRTMIN SIGRTMAX).
Local Abbreviation reachable := (reachable SIGRTMIN SIGRTMAX).
Local Abbreviation exhausted := (exhausted SIGRTMIN SIGRTMAX).

(** X12. [start()], [stop()] and [changeTimeout()] on one timer leave every
    other live timer alone, whether the call returns or throws: the other
    object, its semaphore, its operating-system timer and the registry are
    as before, and no callback memory changes. *)
Theorem member_calls_spare_the_others w a b o o' ok d m :
  reachable w → objs w !! a = Some o → objs w !! b = Some o' → a ≠ b →
  m ∈ [start a ok; stop a ok; changeTimeout a d ok] →
  let w' := after m w in
  objs w' !! b = Some o' ∧
  sems w' = sems w ∧
  timers w' !! timer_id_ o' = timers w !! timer_id_ o' ∧
  signal_map_ w' = signal_map_ w ∧
  user w' = user w.
Proof.
  intros Hw Ha Hb Hne Hm.
  destruct (live_distinct SIGRTMIN SIGRTMAX SIGRTMIN_pos w a b o o' Hw Ha Hb Hne)
    as [_ Htid].
  set (P := λ w0 : World,
         objs w0 !! b = Some o' ∧ sems w0 = sems w ∧
         timers w0 !! timer_id_ o' = timers w !! timer_id_ o' ∧
         signal_map_ w0 = signal_map_ w ∧ user w0 = user w).
  change (P (after m w)).
  assert (P w) as Hsame by done.
  assert (∀ o1 f e,
            (f = (λ m, m) ∨ ∃ its, f = alter (with_setting its) (timer_id_ o)) →
            P (set_timers f (emit e (set_objs <[a := o1]> w)))) as Hcall.
  { intros o1 f e Hf. unfold P. cbn. rewrite lookup_insert_ne by done.
    repeat (split; [done |]). split; [| done].
    destruct Hf as [-> | [its ->]]; [done |]. by rewrite lookup_alter_ne. }
  unfold after.
  apply elem_of_cons in Hm as [-> | Hm];
    [| apply elem_of_cons in Hm as [-> | Hm];
       [| apply elem_of_cons in Hm as [-> | Hm];
          [| by apply elem_of_nil in Hm]]];
    destruct (is_running_ o) eqn:Hr.
  - by rewrite (start_running a ok w o).
  - rewrite (start_stopped a ok w o) by done.
    destruct ok; cbn [world_of]; apply Hcall; eauto.
  - rewrite (stop_running a ok w o) by done.
    destruct ok; cbn [world_of]; apply Hcall; eauto.
  - by rewrite (stop_stopped a ok w o).
  - rewrite (changeTimeout_running a d ok w o) by done.
    destruct ok; cbn [world_of]; apply Hcall; eauto.
  - rewrite (changeTimeout_stopped a d ok w o) by done. unfold P. cbn.
    by rewrite lookup_insert_ne.
Qed.

(** X13. Destroying one timer leaves every other live timer alone: the
    destructor returns, its own object is gone, and any other live object,
    its semaphore, its operating-system timer and its registry entry are as
    before; the world it leaves is reachable again.  The callbacks' memory
    is as before too, unless the worker of the destroyed timer was about to
    call its callback, which then runs once during the join. *)
Theorem destruction_spares_the_others w a b o o' i eintr :
  reachable w → objs w !! a = Some o → objs w !! b = Some o' → a ≠ b →
  ∃ w',
    RobustTimer_dtor (i :: eintr) a true w = Ret tt w' ∧
    objs w' !! a = None ∧
    objs w' !! b = Some o' ∧
    sems w' !! b = sems w !! b ∧
    timers w' !! timer_id_ o' = timers w !! timer_id_ o' ∧
    signal_map_ w' !! signal_number_ o' = Some (Ptr b) ∧
    user w' = match worker_thread_ o, callback_ o with
              | Calling, Some f => f (user w)
              | _, _ => user w
              end ∧
    reachable w'.
Proof.
  intros Hw Ha Hb Hne.
  pose proof (reachable_wf SIGRTMIN SIGRTMAX SIGRTMIN_pos w Hw)
    as [Hown Hmx Hsems _].
  destruct (live_distinct SIGRTMIN SIGRTMAX SIGRTMIN_pos w a b o o' Hw Ha Hb Hne)
    as [Hsn Htid].
  destruct (Hsems a) as [n Hn]; [eauto |].
  destruct (dtor_effect i eintr a w o n)
    as (w' & Hw' & Hob & Hmp & _ & Hsm & Htm & Hu & _); try done.
  exists w'. split; [exact Hw' |].
  rewrite Hob, Hmp, Hsm, Htm.
  split; [apply lookup_delete_eq |].
  split; [by rewrite lookup_delete_ne |].
  split; [by rewrite lookup_delete_ne |].
  split; [by rewrite lookup_delete_ne |].
  split; [rewrite lookup_delete_ne by done; eauto |].
  split; [exact Hu |].
  apply (reach_next SIGRTMIN SIGRTMAX (Destroy (i :: eintr) a true) w w' Hw).
  unfold next. cbn [exec]. by rewrite Hw'.
Qed.

(** X14. A construction that returns has taken the lowest free signal
    number: the new object's number is within [SIGRTMIN, SIGRTMAX], was not
    in the registry, and every number of the range below it was.  The new
    timer starts stopped, with its worker running, its semaphore at zero and
    a fresh, disarmed operating-system timer bound to that number; no other
    object changes. *)
Theorem construction_takes_lowest_free_signal w this timeout_ns cb s t th w' :
  reachable w →
  ctor this timeout_ns cb s t th w = Ret tt w' →
  ∃ signo,
    objs w' !! this = Some {| timer_id_ := next_timer w;
                              timeout_ns_ := timeout_ns;
                              callback_ := cb;
                              is_running_ := false;
                              worker_thread_ := Alive;
                              signal_number_ := signo |} ∧
    is_Some cb ∧
    SIGRTMIN ≤ signo ≤ SIGRTMAX ∧
    signal_map_ w !! signo = None ∧
    (∀ x, SIGRTMIN ≤ x < signo → is_Some (signal_map_ w !! x)) ∧
    signal_map_ w' !! signo = Some (Ptr this) ∧
    sems w' !! this = Some 0%nat ∧
    timers w !! next_timer w = None ∧
    timers w' !! next_timer w = Some (OsTimer signo this its_zero) ∧
    (∀ b, b ≠ this → objs w' !! b = objs w !! b).
Proof.
  intros Hw Hret.
  pose proof (reachable_wf SIGRTMIN SIGRTMAX SIGRTMIN_pos w Hw) as [_ Hmx _ _].
  pose proof (reachable_bound SIGRTMIN SIGRTMAX SIGRTMIN_pos w Hw) as [Hfresh _ _ _ _].
  destruct cb as [f|]; [| done]. destruct s; [| done].
  destruct (ctor_cases SIGRTMIN SIGRTMAX SIGRTMIN_pos this timeout_ns f t th w Hmx)
    as [[_ Hc] | (l1 & signo & l2 & w1 & Hl & Hl1 & Hfree & Hc & Hob & Hmp & _
                    & Hsm & Htm & _)];
    rewrite Hc in Hret; [done |].
  destruct t; [| done]. destruct th; [| done]. injection Hret as <-.
  cbn [andb] in Hob.
  exists signo. rewrite Hob, Hmp, Hsm, Htm, !lookup_insert_eq.
  split; [done |]. split; [eauto |].
  assert (signo ∈ pool) as Hin by (rewrite Hl; apply elem_of_app; right; by left).
  split; [by apply pool_range |].
  split; [done |].
  split; [intros x Hx; apply Hl1; by apply (seqZ_before _ _ _ _ _ _ Hl) |].
  split; [done |]. split; [done |].
  split.
  - destruct (timers w !! next_timer w) eqn:E; [| done].
    assert (next_timer w < next_timer w)%positive by eauto. lia.
  - split; [done |]. intros b Hb. by rewrite lookup_insert_ne.
Qed.

(** X15. How a construction ends is decided in a fixed order.  An empty
    callback is reported first, as [invalid_argument], and a failing
    [sem_init] second: in both cases nothing at all has been done, whatever
    the state of the registry and of its mutex.  After [sem_init] the
    constructor needs the mutex, and parks while it is held.  Then comes the
    exhaustion of the signal numbers, then the failure of [timer_create],
    and last the failure to start the worker thread, which leaves the
    constructor as a [system_error]; the construction returns when none of
    the five applies. *)
Theorem construction_outcomes w this timeout_ns cb s t th :
  (cb = None →
   ctor this timeout_ns cb s t th w =
     Throw (invalid_argument "Callback function cannot be null.") w) ∧
  (is_Some cb → s = false →
   ctor this timeout_ns cb s t th w =
     Throw (runtime_error "Failed to initialize semaphore.") w) ∧
  (is_Some cb → s = true → signal_mutex_ w = true →
   ctor this timeout_ns cb s t th w =
     Block (set_sems <[this := 0%nat]> (emit (EvSemInit this) w))) ∧
  (is_Some cb → s = true → signal_mutex_ w = false → exhausted w →
   ∃ w', ctor this timeout_ns cb s t th w =
           Throw (runtime_error "No available signal numbers for the timer.") w' ∧
         objs w' = objs w) ∧
  (is_Some cb → s = true → signal_mutex_ w = false → ¬ exhausted w →
   ∃ w', ctor this timeout_ns cb s t th w =
           (if t then
              if th then Ret tt
              else Throw (system_error "resource_unavailable_try_again")
            else Throw (runtime_error "Failed to create timer.")) w' ∧
         (t = true → th = true → is_Some (objs w' !! this)) ∧
         (t = false ∨ th = false → objs w' = objs w)).
Proof.
  conjuncts.
  - by intros ->.
  - by intros [f ->] ->.
  - intros [f ->] -> Hmx. by apply ctor_mutex_held.
  - intros [f ->] -> Hmx Hex. eexists. split; [by apply ctor_exhausted | done].
  - intros [f ->] -> Hmx Hfree.
    destruct (ctor_cases SIGRTMIN SIGRTMAX SIGRTMIN_pos this timeout_ns f t th w Hmx)
      as [[Hex _] | (l1 & signo & l2 & w1 & _ & _ & _ & Hc & Hob & _)]; [done |].
    exists w1. split; [exact Hc |]. rewrite Hob. split.
    + intros -> ->. cbn. rewrite lookup_insert_eq. eauto.
    + intros [-> | ->]; [done |]. by rewrite andb_false_r.
Qed.

End Among.

Lemma member_calls_spare_the_others_witness :
  objs (after (stop 3 false) w_full) !! 7%positive = objs w_full !! 7%positive ∧
  sems (after (changeTimeout 3 1 true) w_full) = sems w_full.
Proof.
  split.
  - destruct (member_calls_spare_the_others 34 64 ltac:(lia) w_full 3 7
                {| timer_id_ := 3; timeout_ns_ := 50000000; callback_ := tick;
                   is_running_ := false; worker_thread_ := Alive;
                   signal_number_ := 36 |}
                {| timer_id_ := 7; timeout_ns_ := 50000000; callback_ := tick;
                   is_running_ := false; worker_thread_ := Alive;
                   signal_number_ := 40 |} false 1 (stop 3 false)
                reachable_w_full ltac:(vm_compute; reflexivity)
                ltac:(vm_compute; reflexivity) ltac:(discriminate)
                ltac:(right; left)) as (Hob & _).
    rewrite Hob. vm_compute. reflexivity.
  - destruct (member_calls_spare_the_others 34 64 ltac:(lia) w_full 3 7
                {| timer_id_ := 3; timeout_ns_ := 50000000; callback_ := tick;
                   is_running_ := false; worker_thread_ := Alive;
                   signal_number_ := 36 |}
                {| timer_id_ := 7; timeout_ns_ := 50000000; callback_ := tick;
                   is_running_ := false; worker_thread_ := Alive;
                   signal_number_ := 40 |} true 1 (changeTimeout 3 1 true)
                reachable_w_full ltac:(vm_compute; reflexivity)
                ltac:(vm_compute; reflexivity) ltac:(discriminate)
                ltac:(right; right; left)) as (_ & Hsm & _).
    exact Hsm.
Defined.

Lemma destruction_spares_the_others_witness :
  ∃ w', RobustTimer_dtor [false] 3 true w_full = Ret tt w' ∧
        objs w' !! 3%positive = None ∧
        signal_map_ w' !! 40 = Some (Ptr 7) ∧
        user w' = user w_full.
Proof.
  destruct (destruction_spares_the_others 34 64 ltac:(lia) w_full 3 7
              {| timer_id_ := 3; timeout_ns_ := 50000000; callback_ := tick;
                 is_running_ := false; worker_thread_ := Alive;
                 signal_number_ := 36 |}
              {| timer_id_ := 7; timeout_ns_ := 50000000; callback_ := tick;
                 is_running_ := false; worker_thread_ := Alive;
                 signal_number_ := 40 |} false []
              reachable_w_full ltac:(vm_compute; reflexivity)
              ltac:(vm_compute; reflexivity) ltac:(discriminate))
    as (w' & Hw' & Ha & _ & _ & _ & Hmp & Hu & _).
  exists w'. split; [exact Hw' |]. split; [exact Ha |]. split; [exact Hmp | exact Hu].
Defined.

Lemma construction_takes_lowest_free_signal_witness :
  ∃ signo, signal_number_ <$> objs w_one !! 1%positive = Some signo ∧
           34 ≤ signo ≤ 64 ∧
           ∀ x, 34 ≤ x < signo → is_Some (signal_map_ empty_world !! x).
Proof.
  destruct (construction_takes_lowest_free_signal 34 64 ltac:(lia) empty_world 1
              50000000 tick true true true w_one (reach_init 34 64)
              ltac:(vm_compute; reflexivity))
    as (signo & Hob & _ & Hrange & _ & Hbelow & _).
  exists signo. rewrite Hob. split; [reflexivity |]. split; [exact Hrange | exact Hbelow].
Defined.

Lemma construction_outcomes_witness :
  (∃ w', RobustTimer_ctor 34 64 32 1000 tick true false true w_full =
           Throw (runtime_error "No available signal numbers for the timer.") w' ∧
         objs w' = objs w_full) ∧
  (∃ w', RobustTimer_ctor 34 64 2 1000 tick true true false w_one =
           Throw (system_error "resource_unavailable_try_again") w' ∧
         objs w' = objs w_one).
Proof.
  split.
  - destruct (construction_outcomes 34 64 ltac:(lia) w_full 32 1000 tick true false true)
      as (_ & _ & _ & H & _).
    apply H; [by eexists | reflexivity | vm_compute; reflexivity |].
    apply exhausted_w_full.
  - destruct (construction_outcomes 34 64 ltac:(lia) w_one 2 1000 tick true true false)
      as (_ & _ & _ & _ & H).
    destruct H as (w' & Hw' & _ & Hob);
      [by eexists | reflexivity | vm_compute; reflexivity | |].
    + apply not_exhausted_w_one.
    + exists w'. split; [exact Hw' |]. apply Hob. by right.
Defined.

(** * The worker, statement by statement *)

(** X16. The statements of the worker, taken one at a time by the
    scheduler, make up the passes of [workerThread].  From the top of the
    loop, with a [sem_wait] that returns: when the flag is set, three
    statements (the wait, the test, the call) lead back to the top of the
    loop, in the world in which [workerThread] enters its next pass; when
    the flag is cleared, two statements (the wait, the test) leave the
    worker returned, in the world [workerThread] returns in.  With no unit
    and no interruption the worker is parked either way. *)
Theorem worker_steps_make_a_pass i eintr this w o k n :
  objs w !! this = Some o → worker_thread_ o = Alive →
  sems w !! this = Some k →
  (i = true ∨ k = S n →
   is_running_ o = true →
   bind (worker_step this i)
     (λ _, bind (worker_step this false) (λ _, worker_step this false)) w =
     Ret tt (called this o (waited this i n w)) ∧
   workerThread (i :: eintr) this w =
     workerThread eintr this (called this o (waited this i n w))) ∧
  (i = true ∨ k = S n →
   is_running_ o = false →
   bind (worker_step this i) (λ _, worker_step this false) w =
     Ret tt (worker_run (i :: eintr) this w) ∧
   workerThread (i :: eintr) this w = Ret tt (waited this i n w) ∧
   worker_run (i :: eintr) this w =
     set_objs <[this := with_worker_thread Finished o]> (waited this i n w)) ∧
  (i = false → k = 0%nat →
   worker_step this i w = Block w ∧ workerThread (i :: eintr) this w = Block w).
Proof.
  intros Ho Ht Hs. split; [| split].
  - intros Hi Hr. split.
    + unfold bind at 1. rewrite (worker_step_alive this i w o k n) by done.
      unfold bind at 1.
      erewrite worker_step_woken;
        [| cbn; rewrite objs_waited; apply lookup_insert_eq | done].
      cbn [is_running_ with_worker_thread]. rewrite Hr.
      erewrite worker_step_calling; [| cbn; apply lookup_insert_eq | done].
      f_equal. unfold called. cbn [callback_ with_worker_thread].
      assert (∀ w0 : World, objs w0 = objs w →
                set_objs <[this := with_worker_thread Alive
                                     (with_worker_thread Calling
                                        (with_worker_thread Woken o))]>
                  (set_objs <[this := with_worker_thread Calling
                                        (with_worker_thread Woken o)]>
                     (set_objs <[this := with_worker_thread Woken o]> w0)) = w0)
        as Hback.
      { intros w0 Hw0. destruct w0 as [ob ? ? ? ? ? ? ? ?]. unfold set_objs.
        cbn in *. subst ob. f_equal. rewrite !insert_insert_eq.
        apply insert_id. rewrite Ho. f_equal.
        destruct o. cbn in *. by subst. }
      destruct (callback_ o) as [f|].
      * specialize (Hback (waited this i n w) (objs_waited this i n w)).
        destruct (waited this i n w) as [ob ? ? ? ? ? ? ? ?].
        unfold set_objs, set_user, emit in *. cbn in *.
        injection Hback as Hob. by rewrite Hob.
      * by apply Hback, objs_waited.
    + rewrite (workerThread_pass i eintr this w k n) by done.
      by rewrite Ho, Hr.
  - intros Hi Hr.
    assert (workerThread (i :: eintr) this w = Ret tt (waited this i n w)) as Hloop.
    { rewrite (workerThread_pass i eintr this w k n) by done. by rewrite Ho, Hr. }
    assert (worker_run (i :: eintr) this w =
              set_objs <[this := with_worker_thread Finished o]> (waited this i n w))
      as Hrun.
    { unfold worker_run. rewrite Ho, Ht. cbn [running resume]. rewrite Hloop.
      destruct (waited this i n w) as [ob ? ? ? ? ? ? ? ?] eqn:Hw.
      pose proof (objs_waited this i n w) as Hob. rewrite Hw in Hob. cbn in Hob.
      unfold set_objs. cbn. f_equal. subst ob.
      apply map_eq. intros a. rewrite lookup_alter.
      destruct (decide (a = this)) as [->|Hne].
      - rewrite decide_True by done. by rewrite lookup_insert_eq, Ho.
      - rewrite decide_False by done. by rewrite lookup_insert_ne. }
    split; [| split; [exact Hloop | exact Hrun]].
    unfold bind at 1. rewrite (worker_step_alive this i w o k n) by done.
    erewrite worker_step_woken;
      [| cbn; rewrite objs_waited; apply lookup_insert_eq | done].
    cbn [is_running_ with_worker_thread]. rewrite Hr, Hrun.
    f_equal. destruct (waited this i n w) as [ob ? ? ? ? ? ? ? ?].
    unfold set_objs. cbn. f_equal. by rewrite insert_insert_eq.
  - intros -> ->. split; [by apply (worker_step_parked this w o) |].
    by apply workerThread_parked.
Qed.

Lemma worker_steps_make_a_pass_witness :
  let w := after (timer_expire 1) w_running in
  bind (worker_step 1 false)
    (λ _, bind (worker_step 1 false) (λ _, worker_step 1 false)) w =
    Ret tt (called 1 {| timer_id_ := 1; timeout_ns_ := 50000000; callback_ := tick;
                         is_running_ := true; worker_thread_ := Alive;
                         signal_number_ := 34 |} (waited 1 false 0 w)) ∧
  worker_step 1 false w_one = Block w_one.
Proof.
  cbv zeta. split.
  - destruct (worker_steps_make_a_pass false [] 1 (after (timer_expire 1) w_running)
                {| timer_id_ := 1; timeout_ns_ := 50000000; callback_ := tick;
                   is_running_ := true; worker_thread_ := Alive;
                   signal_number_ := 34 |} 1 0
                ltac:(vm_compute; reflexivity) ltac:(reflexivity)
                ltac:(vm_compute; reflexivity))
      as (Hset & _).
    destruct (Hset ltac:(by right) ltac:(reflexivity)) as (Hsteps & _).
    exact Hsteps.
  - destruct (worker_steps_make_a_pass false [] 1 w_one
                {| timer_id_ := 1; timeout_ns_ := 50000000; callback_ := tick;
                   is_running_ := false; worker_thread_ := Alive;
                   signal_number_ := 34 |} 0 0
                ltac:(vm_compute; reflexivity) ltac:(reflexivity)
                ltac:(vm_compute; reflexivity))
      as (_ & _ & Hpark).
    apply Hpark; reflexivity.
Defined.

(** X17. After the flag has been cleared, the worker runs the callback at
    most once more.  It does so exactly when it had already read the flag as
    set and was about to call the callback: that one call is made although
    the timer is stopped.  Wherever else the worker is, and however many
    wakes are pending or interruptions arrive, it runs no callback: it stays
    parked, or it takes one wake, or is interrupted once, and returns. *)
Theorem stopped_worker_runs_at_most_one_callback eintr this w o k :
  objs w !! this = Some o → is_running_ o = false →
  sems w !! this = Some k →
  let w' := worker_run eintr this w in
  callbacks (trace (effect (worker_run eintr this)) w) =
    match worker_thread_ o, callback_ o with
    | Calling, Some _ => [EvCallback this]
    | _, _ => []
    end ∧
  user w' = match worker_thread_ o, callback_ o with
            | Calling, Some f => f (user w)
            | _, _ => user w
            end ∧
  (worker_thread_ o = Woken →
   worker_thread_ <$> objs w' !! this = Some Finished) ∧
  (running (worker_thread_ o) = true →
   worker_thread_ <$> objs w' !! this = Some Finished ∨
   worker_thread_ <$> objs w' !! this = Some Alive).
Proof.
  intros Ho Hr Hs w'.
  (* the loop, entered with the flag cleared *)
  assert (∀ w0 : World,
            objs w0 = objs w → sems w0 = sems w →
            ∃ es w1,
              (workerThread eintr this w0 = Block w1 ∨
               workerThread eintr this w0 = Ret tt w1) ∧
              objs w1 = objs w ∧ user w1 = user w0 ∧ log w1 = log w0 ++ es ∧
              callbacks es = []) as Hloop.
  { intros w0 Hob Hsm. destruct eintr as [|i eintr].
    - exists [], w0. rewrite app_nil_r. auto.
    - assert (∃ n, i = true ∨ k = S n ∨ (i = false ∧ k = 0%nat))
        as [n [Hi|[Hi|[-> ->]]]]
        by (exists (pred k); destruct i, k; auto).
      + exists [if i then EvSemWaitEintr this else EvSemWait this],
               (waited this i n w0).
        rewrite (workerThread_pass i eintr this w0 k n) by (rewrite ?Hsm; auto).
        rewrite Hob, Ho, Hr, objs_waited. split; [auto |].
        split; [done |]. by destruct i.
      + exists [if i then EvSemWaitEintr this else EvSemWait this],
               (waited this i n w0).
        rewrite (workerThread_pass i eintr this w0 k n) by (rewrite ?Hsm; auto).
        rewrite Hob, Ho, Hr, objs_waited. split; [auto |].
        split; [done |]. by destruct i.
      + exists [], w0. rewrite workerThread_parked by (by rewrite Hsm).
        rewrite app_nil_r. auto. }
  (* what the scheduler records *)
  assert (∀ w1 t, objs w1 = objs w →
            worker_thread_ <$>
              objs (set_objs (alter (with_worker_thread t) this) w1) !! this = Some t)
    as Hmark.
  { intros w1 t Hob. cbn. by rewrite lookup_alter_eq, Hob, Ho. }
  unfold trace, after, effect. cbn [world_of]. fold w'. subst w'.
  unfold worker_run. rewrite Ho.
  destruct (worker_thread_ o) eqn:Ht; cbn [running].
  - cbn [resume].
    destruct (Hloop w eq_refl eq_refl) as (es & w1 & [Hw1|Hw1] & Hob & Hu & Hlog & Hcb);
      rewrite Hw1; cbn; rewrite Hlog, drop_app_length, Hcb, Hu;
      rewrite ?lookup_alter_eq, Hob, Ho; cbn; conjuncts; try done; auto.
  - rewrite resume_woken, Ho, Hr. cbn. rewrite drop_all, lookup_alter_eq, Ho.
    cbn. conjuncts; try done; auto.
  - rewrite resume_calling, Ho.
    destruct (Hloop (called this o w) (objs_called this o w) (sems_called this o w))
      as (es & w1 & [Hw1|Hw1] & Hob & Hu & Hlog & Hcb);
      rewrite Hw1; cbn; rewrite Hlog, Hu, lookup_alter_eq, Hob, Ho; cbn;
      unfold called, callbacks in *; destruct (callback_ o); cbn;
      rewrite <- ?app_assoc, drop_app_length; cbn; rewrite ?Hcb;
      conjuncts; try done; auto.
  - cbn. rewrite drop_all. split; [done |]. split; [done |]. by split.
  - cbn. rewrite drop_all. split; [done |]. split; [done |]. by split.
Qed.

Lemma stopped_worker_runs_at_most_one_callback_witness :
  let w := after (stop 1 true) w_calling in
  is_running_ <$> objs w !! 1%positive = Some false ∧
  callbacks (trace (effect (worker_run [false; false] 1)) w) = [EvCallback 1] ∧
  user (worker_run [false; false] 1 w) = 1 ∧
  callbacks (trace (effect (worker_run [false; false] 1)) w_late_wake) = [].
Proof.
  cbv zeta. split; [vm_compute; reflexivity |].
  destruct (stopped_worker_runs_at_most_one_callback [false; false] 1
              (after (stop 1 true) w_calling)
              {| timer_id_ := 1; timeout_ns_ := 50000000; callback_ := tick;
                 is_running_ := false; worker_thread_ := Calling;
                 signal_number_ := 34 |} 0
              ltac:(vm_compute; reflexivity) ltac:(reflexivity)
              ltac:(vm_compute; reflexivity))
    as (Hcb & Hu & _).
  destruct (stopped_worker_runs_at_most_one_callback [false; false] 1 w_late_wake
              {| timer_id_ := 1; timeout_ns_ := 50000000; callback_ := tick;
                 is_running_ := false; worker_thread_ := Alive;
                 signal_number_ := 34 |} 1
              ltac:(vm_compute; reflexivity) ltac:(reflexivity)
              ltac:(vm_compute; reflexivity))
    as (Hcb' & _).
  split; [exact Hcb |]. split; [| exact Hcb'].
  rewrite Hu. vm_compute. reflexivity.
Defined.
